(** * A shallow embedding of the Sudoku class of [3_sudoku.py]

    The Python class keeps the puzzle in [self.board], a list of nine lists
    of nine integers, and mutates it in place.  The embedding keeps that
    representation: a board is a list of rows, a cell is read by two list
    lookups, and an assignment [self.board[row][col] = num] is an update of
    one row at one index.  Methods that mutate the board take the board and
    return the board they leave behind. *)

From Stdlib Require Import ZArith List Lia Bool String Ascii.
From stdpp Require Import base option list list_numbers pretty.

Local Open Scope nat_scope.

(* ================================================================== *)
(** * The board *)
(* ================================================================== *)

(** Python integers are unbounded, so a cell holds a [Z]; [0] is the empty
    cell.  Row and column indices are the values of [range(9)], hence
    naturals. *)
Abbreviation grid := (list (list Z)).

(** [self.board[i][j]].  Every board a [Sudoku] object holds has nine rows
    of nine entries ([load_board] checks it), and every index the methods
    use is below nine, so the lookup succeeds there ([cell_lookup] below);
    outside that range Python raises [IndexError] and the model's default
    [0] is never consulted by the theorems. *)
Definition cell (b : grid) (i j : nat) : Z :=
  default 0%Z (row ← b !! i; row !! j).

(** [self.board[i][j] = v]: the row object at index [i] is updated at
    index [j].  The rows are distinct lists (the constructor copies them
    one by one), so no other row changes. *)
Definition set_cell (b : grid) (i j : nat) (v : Z) : grid :=
  alter (fun row => <[j := v]> row) i b.

(** The shape [load_board] enforces: nine rows, nine entries each. *)
Definition wf (b : grid) : Prop :=
  length b = 9 /\ Forall (fun row : list Z => length row = 9) b.

(** [range(9)] and [range(1, 10)]. *)
Definition range9 : list nat := seq 0 9.
Definition digits : list Z := seqZ 1 9.

(* ================================================================== *)
(** * Loops that return from inside *)
(* ================================================================== *)

(** [for x in xs: ... return y ...]: the first iteration whose body
    returns decides the result; [None] means the loop ran to its end. *)
Fixpoint first_some {A B : Type} (body : A -> option B) (xs : list A)
  : option B :=
  match xs with
  | [] => None
  | x :: xs' =>
      match body x with
      | Some y => Some y
      | None => first_some body xs'
      end
  end.

(** [for i in range(9): for j in range(9): ...]. *)
Definition for_cells {B : Type} (body : nat -> nat -> option B) : option B :=
  first_some (fun i => first_some (fun j => body i j) range9) range9.

(* ================================================================== *)
(** * [find_empty] *)
(* ================================================================== *)

Definition find_empty (b : grid) : option (nat * nat) :=
  for_cells (fun i j => if (cell b i j =? 0)%Z then Some (i, j) else None).

(* ================================================================== *)
(** * [is_valid] *)
(* ================================================================== *)

(** The three loops of [is_valid], each returning [False] at the first
    conflicting cell; [existsb] stops at the first hit in the same way. *)
Definition row_conflict (b : grid) (num : Z) (row col : nat) : bool :=
  existsb (fun j => (cell b row j =? num)%Z && negb (j =? col)) range9.

Definition col_conflict (b : grid) (num : Z) (row col : nat) : bool :=
  existsb (fun i => (cell b i col =? num)%Z && negb (i =? row)) range9.

Definition box_conflict (b : grid) (num : Z) (row col : nat) : bool :=
  let box_row := (row / 3) * 3 in
  let box_col := (col / 3) * 3 in
  existsb (fun i =>
    existsb (fun j =>
      (cell b i j =? num)%Z && negb ((i =? row) && (j =? col)))
      (seq box_col 3))
    (seq box_row 3).

Definition is_valid (b : grid) (num : Z) (row col : nat) : bool :=
  if row_conflict b num row col then false
  else if col_conflict b num row col then false
  else if box_conflict b num row col then false
  else true.

(* ================================================================== *)
(** * [solve] *)
(* ================================================================== *)

(** The body of [for num in range(1, 10)] inside [solve], with the
    recursive call abstracted as [rec].  The board is threaded through:
    a digit that passes [is_valid] is written, [rec] runs on the written
    board, and after a failed [rec] the cell is reset to [0] on the board
    [rec] left behind.  [None] stands for a recursive call that did not
    return. *)
Fixpoint try_digits (rec : grid -> option (bool * grid))
    (row col : nat) (nums : list Z) (b : grid) : option (bool * grid) :=
  match nums with
  | [] => Some (false, b)
  | num :: nums' =>
      if is_valid b num row col then
        match rec (set_cell b row col num) with
        | None => None
        | Some (true, b') => Some (true, b')
        | Some (false, b') => try_digits rec row col nums' (set_cell b' row col 0)
        end
      else try_digits rec row col nums' b
  end.

(** [solve], with [show_steps] left at its default [False] (the trace
    only prints).  The recursion is not structural, so the model counts
    stack frames: [fuel] is the number of nested [solve] frames allowed,
    and [None] means the allowance was used up. *)
Fixpoint solve_fuel (fuel : nat) (b : grid) : option (bool * grid) :=
  match fuel with
  | 0 => None
  | S fuel' =>
      match find_empty b with
      | None => Some (true, b)
      | Some (row, col) => try_digits (solve_fuel fuel') row col digits b
      end
  end.

(** Number of empty cells: the termination measure of [solve]. *)
Definition empties (b : grid) : nat :=
  length (List.filter (fun p : nat * nat => (cell b p.1 p.2 =? 0)%Z)
                      (list_prod range9 range9)).

(** [solve()] on a board: eighty-two frames are always enough
    ([solve_fuel_total] below), one per empty cell and one that finds
    the board full. *)
Definition solve (b : grid) : option (bool * grid) := solve_fuel 82 b.

(* ================================================================== *)
(** * [is_solved] *)
(* ================================================================== *)

(** The inner loop of the verification pass for row [i]: the digit is
    read, the cell is zeroed, [is_valid] is asked, and the digit is
    written back on both paths before the loop returns or goes on. *)
Fixpoint check_cols (i : nat) (js : list nat) (b : grid) : bool * grid :=
  match js with
  | [] => (true, b)
  | j :: js' =>
      let num := cell b i j in
      let b0 := set_cell b i j 0 in
      if negb (is_valid b0 num i j) then (false, set_cell b0 i j num)
      else check_cols i js' (set_cell b0 i j num)
  end.

Fixpoint check_rows (rows : list nat) (b : grid) : bool * grid :=
  match rows with
  | [] => (true, b)
  | i :: rows' =>
      match check_cols i range9 b with
      | (false, b') => (false, b')
      | (true, b') => check_rows rows' b'
      end
  end.

(** [is_solved] returns its verdict together with the board it leaves. *)
Definition is_solved (b : grid) : bool * grid :=
  if existsb (fun i => existsb (fun j => (cell b i j =? 0)%Z) range9) range9
  then (false, b)
  else check_rows range9 b.

(* ================================================================== *)
(** * [get_hint] *)
(* ================================================================== *)

(** [[num for num in range(1, 10) if self.is_valid(num, i, j)]]. *)
Definition valid_nums (b : grid) (i j : nat) : list Z :=
  List.filter (fun num => is_valid b num i j) digits.

(** First scan: an empty cell whose list of valid digits has length one. *)
Definition single_at (b : grid) (i j : nat) : option (nat * nat * Z) :=
  if (cell b i j =? 0)%Z then
    match valid_nums b i j with
    | [num] => Some (i, j, num)
    | _ => None
    end
  else None.

Definition single_scan (b : grid) : option (nat * nat * Z) :=
  for_cells (single_at b).

(** Second scan: an empty cell and the first digit valid there. *)
Definition any_at (b : grid) (i j : nat) : option (nat * nat * Z) :=
  if (cell b i j =? 0)%Z then
    first_some (fun num => if is_valid b num i j then Some (i, j, num)
                           else None) digits
  else None.

Definition any_scan (b : grid) : option (nat * nat * Z) :=
  for_cells (any_at b).

Definition get_hint (b : grid) : option (nat * nat * Z) :=
  match single_scan b with
  | Some h => Some h
  | None => any_scan b
  end.

(* ================================================================== *)
(** * Construction *)
(* ================================================================== *)

(** A character of a Python [str] is a Unicode code point. *)
Abbreviation char := N.
Abbreviation str := (list N).

(** The [ValueError]s of the constructors, told apart by their message:
    ["Board must be 9x9"], ["String must be 81 characters long, got n"],
    ["Invalid character 'c' at position pos"], and the error [int(char)]
    raises by itself, ["invalid literal for int() with base 10: 'c'"]. *)
Inductive error : Type :=
  | InvalidDimensions
  | InvalidLength (n : nat)
  | InvalidCharacter (c : char) (pos : nat)
  | IntLiteral (c : char).

Inductive result (A : Type) : Type :=
  | Ok (a : A)
  | Err (e : error).
Arguments Ok {A} a.
Arguments Err {A} e.

Definition bind {A B : Type} (m : result A) (k : A -> result B) : result B :=
  match m with
  | Ok a => k a
  | Err e => Err e
  end.

Notation "'do' x <- m ; k" := (bind m (fun x => k))
  (at level 10, x name, m at level 100, k at level 200).

(** A loop that builds a list and stops at the first raise. *)
Fixpoint collect {A B : Type} (f : A -> result B) (xs : list A)
  : result (list B) :=
  match xs with
  | [] => Ok []
  | x :: xs' => do y <- f x; do ys <- collect f xs'; Ok (y :: ys)
  end.

Record Sudoku : Type := mkSudoku { board : grid; original : grid }.

(** [[[g[i][j] for j in range(9)] for i in range(9)]]. *)
Definition copy9 (g : grid) : grid :=
  map (fun i => map (fun j => cell g i j) range9) range9.

Definition load_board (g : grid) : result Sudoku :=
  if negb (length g =? 9) || existsb (fun row => negb (length row =? 9)) g
  then Err InvalidDimensions
  else Ok {| board := copy9 g; original := copy9 g |}.

(** [Sudoku(board)]: [load_board] runs first, then [original] is taken
    again from [self.board]. *)
Definition init (g : option grid) : result Sudoku :=
  match g with
  | None =>
      let z := map (fun _ => map (fun _ => 0%Z) range9) range9 in
      Ok {| board := z; original := copy9 z |}
  | Some g =>
      do s <- load_board g;
      Ok {| board := board s; original := copy9 (board s) |}
  end.

(** ** The built-ins [from_string] calls

    [str.split()], [str.isdigit()] and [int()] consult the Unicode
    character database; the tables below are those of Unicode 14.0.0
    (CPython 3.11).  On the ASCII range they are the same in every
    version. *)

(** Characters [str.split()] treats as separators. *)
Definition isspace (c : char) : bool :=
  existsb (N.eqb c)
    [0x9; 0xa; 0xb; 0xc; 0xd; 0x1c; 0x1d; 0x1e; 0x1f; 0x20; 0x85; 0xa0;
     0x1680; 0x2000; 0x2001; 0x2002; 0x2003; 0x2004; 0x2005; 0x2006;
     0x2007; 0x2008; 0x2009; 0x200a; 0x2028; 0x2029; 0x202f; 0x205f;
     0x3000]%N.

(** Decimal digits (category Nd) come in runs of ten, zero first; the
    list gives the zero of each run. *)
Definition decimal_zeros : list N :=
  [0x30; 0x660; 0x6f0; 0x7c0; 0x966; 0x9e6; 0xa66; 0xae6; 0xb66; 0xbe6;
   0xc66; 0xce6; 0xd66; 0xde6; 0xe50; 0xed0; 0xf20; 0x1040; 0x1090;
   0x17e0; 0x1810; 0x1946; 0x19d0; 0x1a80; 0x1a90; 0x1b50; 0x1bb0;
   0x1c40; 0x1c50; 0xa620; 0xa8d0; 0xa900; 0xa9d0; 0xa9f0; 0xaa50;
   0xabf0; 0xff10; 0x104a0; 0x10d30; 0x11066; 0x110f0; 0x11136; 0x111d0;
   0x112f0; 0x11450; 0x114d0; 0x11650; 0x116c0; 0x11730; 0x118e0;
   0x11950; 0x11c50; 0x11d50; 0x11da0; 0x16a60; 0x16ac0; 0x16b50;
   0x1d7ce; 0x1d7d8; 0x1d7e2; 0x1d7ec; 0x1d7f6; 0x1e140; 0x1e2f0;
   0x1e950; 0x1fbf0]%N.

(** Characters with Numeric_Type=Digit that are not decimal (superscripts,
    circled digits and the like), as inclusive ranges: [isdigit] accepts
    them, [int] does not. *)
Definition other_digits : list (N * N) :=
  [(0xb2, 0xb3); (0xb9, 0xb9); (0x1369, 0x1371); (0x19da, 0x19da);
   (0x2070, 0x2070); (0x2074, 0x2079); (0x2080, 0x2089); (0x2460, 0x2468);
   (0x2474, 0x247c); (0x2488, 0x2490); (0x24ea, 0x24ea); (0x24f5, 0x24fd);
   (0x24ff, 0x24ff); (0x2776, 0x277e); (0x2780, 0x2788); (0x278a, 0x2792);
   (0x10a40, 0x10a43); (0x10e60, 0x10e68); (0x11052, 0x1105a);
   (0x1f100, 0x1f10a)]%N.

(** [int(c)] for a one-character string [c]: the value of a decimal
    digit, [None] where [int] raises [ValueError]. *)
Definition int_char (c : char) : option Z :=
  first_some (fun z => if ((z <=? c) && (c <? z + 10))%N
                       then Some (Z.of_N (c - z)) else None)
             decimal_zeros.

(** [c.isdigit()]. *)
Definition isdigit (c : char) : bool :=
  match int_char c with
  | Some _ => true
  | None => existsb (fun r : N * N => ((r.1 <=? c) && (c <=? r.2))%N)
                    other_digits
  end.

(** [''.join(s.split())]: the string without its whitespace. *)
Definition strip_ws (s : str) : str :=
  List.filter (fun c => negb (isspace c)) s.

(** The code point of an ASCII character, and of each byte of a literal. *)
Definition chr (a : ascii) : char := N_of_ascii a.
Definition of_ascii (s : string) : str := map chr (list_ascii_of_string s).

(** The body of the inner loop of [from_string] for the character [c]
    read at flat position [pos]: the decoded cell, or the error raised
    there. *)
Definition parse_char (c : char) (pos : nat) : result Z :=
  if (c =? chr ".")%N || (c =? chr "0")%N then Ok 0%Z
  else if isdigit c then
    match int_char c with
    | None => Err (IntLiteral c)
    | Some v =>
        if ((1 <=? v) && (v <=? 9))%Z then Ok v
        else Err (InvalidCharacter c pos)
    end
  else Err (InvalidCharacter c pos).

(** [s[pos]]; the index is in range wherever [from_string] uses it,
    because the length check has passed. *)
Definition char_at (s : str) (pos : nat) : char := nth pos s 0%N.

Definition from_string (s : str) : result Sudoku :=
  let s := strip_ws s in
  if negb (length s =? 81) then Err (InvalidLength (length s))
  else
    do g <- collect (fun i =>
              collect (fun j =>
                parse_char (char_at s (i * 9 + j)) (i * 9 + j)) range9)
            range9;
    init (Some g).

(* ================================================================== *)
(** * Vocabulary of the statements *)
(* ================================================================== *)

(** Row-major order on cells: row first, then column. *)
Definition before (i j r c : nat) : Prop := i < r \/ (i = r /\ j < c).

(** The triple of consecutive indices an index lies in: [0] for 0-2,
    [1] for 3-5, [2] for 6-8. *)
Definition triple (x : nat) : nat :=
  if x <=? 2 then 0 else if x <=? 5 then 1 else 2.

(** [(i, j)] is another cell of the row, the column or the 3x3 box of
    [(row, col)]. *)
Definition peer (row col i j : nat) : Prop :=
  (i, j) <> (row, col) /\
  (i = row \/ j = col \/ (triple i = triple row /\ triple j = triple col)).

(** No cell is empty. *)
Definition full (b : grid) : Prop :=
  forall i j, i < 9 -> j < 9 -> cell b i j <> 0%Z.

(** The digit a cell holds passes [is_valid] where it stands. *)
Definition valid_at (b : grid) (i j : nat) : Prop :=
  is_valid b (cell b i j) i j = true.

(** Every filled cell passes [is_valid]: the board has no conflict yet. *)
Definition consistent (b : grid) : Prop :=
  forall i j, i < 9 -> j < 9 -> cell b i j <> 0%Z -> valid_at b i j.

(** [b'] is reached from [b] by assignments to empty cells only: filled
    cells keep their value and each empty one received a digit 1..9. *)
Definition extends (b b' : grid) : Prop :=
  forall i j, i < 9 -> j < 9 ->
    (cell b i j <> 0%Z -> cell b' i j = cell b i j) /\
    (cell b i j = 0%Z -> (1 <= cell b' i j <= 9)%Z).

(** A full valid assignment reachable from [b]: a 9x9 board that extends
    [b] and that [is_solved] accepts. *)
Definition completion (b b' : grid) : Prop :=
  wf b' /\ extends b b' /\ (is_solved b').1 = true.

(** What a [True] return of [solve] leaves on the board. *)
Definition solved_from (b b' : grid) : Prop :=
  wf b' /\ full b' /\ extends b b' /\
  forall i j, i < 9 -> j < 9 ->
    cell b i j = 0%Z \/ valid_at b i j -> valid_at b' i j.

(** What the digit loop needs from the recursive call on a written
    board: it returns, and a failed call hands the board back as it got
    it. *)
Definition rec_restores (rec : grid -> option (bool * grid))
    (b : grid) (row col : nat) (nums : list Z) : Prop :=
  forall d, In d nums -> is_valid b d row col = true ->
    exists res b', rec (set_cell b row col d) = Some (res, b') /\
                   (res = false -> b' = set_cell b row col d).

(** [d] is a digit 1..9 that passes [is_valid] at [(i, j)]. *)
Definition candidate (b : grid) (i j : nat) (d : Z) : Prop :=
  In d digits /\ is_valid b d i j = true.

(** [(i, j)] is empty and [d] is the one digit that passes there. *)
Definition forced (b : grid) (i j : nat) (d : Z) : Prop :=
  cell b i j = 0%Z /\ candidate b i j d /\
  forall d', candidate b i j d' -> d' = d.

(** The error a construction step raised, if any. *)
Definition err_of {A : Type} (r : result A) : option error :=
  match r with
  | Ok _ => None
  | Err e => Some e
  end.

(** The characters the format names: ['.'], ['0'] and ['1'] to ['9']. *)
Definition plain (c : char) : Prop :=
  c = chr "." \/ (chr "0" <= c <= chr "9")%N.

(** [plain] as a test that runs. *)
Definition plainb (c : char) : bool :=
  (c =? chr ".")%N || ((chr "0" <=? c) && (c <=? chr "9"))%N.

(** The cell a plain character stands for. *)
Definition digit_of (c : char) : Z :=
  if (c =? chr ".")%N then 0%Z else (Z.of_N c - 48)%Z.

(** The grid an 81-character string spells, row by row. *)
Definition decode (t : str) : grid :=
  map (fun i => map (fun j => digit_of (char_at t (i * 9 + j))) range9)
      range9.

(** [c], at position [k], is the first character of [t] that is not
    plain. *)
Definition first_bad (t : str) (k : nat) (c : char) : Prop :=
  t !! k = Some c /\ ~ plain c /\
  forall k' c', k' < k -> t !! k' = Some c' -> plain c'.

(** A string of ASCII characters. *)
Definition ascii_only (t : str) : Prop := Forall (fun c => (c < 128)%N) t.

(** [consistent] as a test that runs. *)
Definition consistentb (b : grid) : bool :=
  forallb (fun i =>
    forallb (fun j =>
      (cell b i j =? 0)%Z || is_valid b (cell b i j) i j) range9) range9.

(* ================================================================== *)
(** * Boards used as examples *)
(* ================================================================== *)

(** The puzzle of [play_mode] and of the first test of [run_tests]. *)
Definition easy : grid :=
  [[0; 0; 3; 0; 2; 0; 6; 0; 0];
   [9; 0; 0; 3; 0; 5; 0; 0; 1];
   [0; 0; 1; 8; 0; 6; 4; 0; 0];
   [0; 0; 8; 1; 0; 2; 9; 0; 0];
   [7; 0; 0; 0; 0; 0; 0; 0; 8];
   [0; 0; 6; 7; 0; 8; 2; 0; 0];
   [0; 0; 2; 6; 0; 9; 5; 0; 0];
   [8; 0; 0; 2; 0; 3; 0; 0; 9];
   [0; 0; 5; 0; 1; 0; 3; 0; 0]]%Z.

(** The board [solve] leaves on [easy]. *)
Definition easy_solved : grid :=
  [[4; 8; 3; 9; 2; 1; 6; 5; 7];
   [9; 6; 7; 3; 4; 5; 8; 2; 1];
   [2; 5; 1; 8; 7; 6; 4; 9; 3];
   [5; 4; 8; 1; 3; 2; 9; 7; 6];
   [7; 2; 9; 5; 6; 4; 1; 3; 8];
   [1; 3; 6; 7; 9; 8; 2; 4; 5];
   [3; 7; 2; 6; 8; 9; 5; 1; 4];
   [8; 1; 4; 2; 5; 3; 7; 6; 9];
   [6; 9; 5; 4; 1; 7; 3; 8; 2]]%Z.

(** A board filled with fives: no empty cell, conflicts everywhere. *)
Definition fives : grid := replicate 9 (replicate 9 5%Z).

(** One empty cell, at (0, 0), and no digit fits it: 1..8 stand in its
    row and 9 below it. *)
Definition stuck : grid :=
  [0; 1; 2; 3; 4; 5; 6; 7; 8]%Z :: replicate 8 (replicate 9 9%Z).

(** The board of [Sudoku()]: every cell empty. *)
Definition blank : grid := replicate 9 (replicate 9 0%Z).

(** A 9x9 grid with entries that are not Sudoku digits. *)
Definition odd_grid : grid :=
  [17; -3; 0; 0; 0; 0; 0; 0; 0]%Z :: replicate 8 (replicate 9 0%Z).

(** The easy puzzle as text; the same with a character too many; with
    an ['x'] in the last place; and with its first character replaced by
    U+0663 ARABIC-INDIC DIGIT THREE. *)
Definition easy_text : str := of_ascii
  "003020600900305001001806400008102900700000008006708200002609500800203009005010300".
Definition long_text : str := easy_text ++ of_ascii "0".
Definition x_text : str := <[80 := chr "x"]> easy_text.
Definition arabic_text : str := <[0 := 0x663%N]> easy_text.

(** Two empty cells (0, 0) and (0, 1) that both need 1 or 2, while
    column 1 already holds both: [solve] places 1, fails on the next
    cell, undoes, places 2, fails again and gives up. *)
Definition dead_end : grid :=
  [[0; 0; 3; 4; 5; 6; 7; 8; 9];
   [0; 0; 0; 0; 0; 0; 0; 0; 0];
   [0; 0; 0; 0; 0; 0; 0; 0; 0];
   [0; 1; 0; 0; 0; 0; 0; 0; 0];
   [0; 2; 0; 0; 0; 0; 0; 0; 0];
   [0; 0; 0; 0; 0; 0; 0; 0; 0];
   [0; 0; 0; 0; 0; 0; 0; 0; 0];
   [0; 0; 0; 0; 0; 0; 0; 0; 0];
   [0; 0; 0; 0; 0; 0; 0; 0; 0]]%Z.

(* ================================================================== *)
(** * [pretty_print] *)
(* ================================================================== *)

(** [str(v)], as [f"{v}"] inserts it. *)
Definition str_int (v : Z) : string := pretty v.

(** [s * n]. *)
Fixpoint times (s : string) (n : nat) : string :=
  match n with
  | 0 => ""
  | S n' => s +:+ times s n'
  end.

(** ["  +" + "---+" * 9]. *)
Definition rule_line : string := "  +" +:+ times "---+" 9.

(** ["    " + "   ".join(str(i) for i in range(9))]. *)
Definition header_line : string :=
  "    " +:+ String.concat "   " (map (fun i => str_int (Z.of_nat i)) range9).

(** What the inner loop appends for one cell. *)
Definition cell_text (v : Z) : string :=
  if (v =? 0)%Z then " . " else " " +:+ str_int v +:+ " ".

(** The line built for row [i]. *)
Definition row_line (b : grid) (i : nat) : string :=
  fold_left (fun row_str j =>
               let row_str := row_str +:+ cell_text (cell b i j) in
               if (j + 1) mod 3 =? 0 then row_str +:+ "|" else row_str)
            range9 (str_int (Z.of_nat i) +:+ " |").

(** [pretty_print]: the lines handed to [print], in order. *)
Definition pretty_print (b : grid) : list string :=
  [header_line; rule_line] ++
  flat_map (fun i =>
              row_line b i ::
              (if (i + 1) mod 3 =? 0 then [rule_line] else []))
           range9.

(* ================================================================== *)
(** * The callers: the move of [play_mode], the dispatch of [solve_mode] *)
(* ================================================================== *)

(** The replies of the move branch of [play_mode], by the message
    printed: ["Row and column must be between 0 and 8"], ["Number must
    be between 1 and 9"], ["Cannot change original puzzle numbers"],
    ["Valid move!"], ["Invalid move! Number conflicts with Sudoku
    rules"]. *)
Inductive move_reply : Type :=
  | BadPosition
  | BadNumber
  | OriginalCell
  | Placed
  | Conflict.

(** The move branch of the loop of [play_mode], from the point where the
    three tokens have been read as the integers [row], [col] and [num]
    (the [int()] conversions before it are not modelled): the range
    checks, the test on [original], the call of [is_valid] and the
    assignment.  It returns the reply with the object it leaves. *)
Definition try_move (s : Sudoku) (row col num : Z) : move_reply * Sudoku :=
  if negb ((0 <=? row) && (row <=? 8) && ((0 <=? col) && (col <=? 8)))%Z
  then (BadPosition, s)
  else if negb ((1 <=? num) && (num <=? 9))%Z then (BadNumber, s)
  else
    let r := Z.to_nat row in
    let c := Z.to_nat col in
    if negb (cell (original s) r c =? 0)%Z then (OriginalCell, s)
    else if is_valid (board s) num r c
    then (Placed, {| board := set_cell (board s) r c num;
                     original := original s |})
    else (Conflict, s).

(** The loop of [play_mode] fed with moves only (no [hint], [solve] or
    [quit] line): before each input [is_solved] is asked, and the loop
    is left as soon as it answers [True]; otherwise the next move is
    tried on the object [is_solved] left.  The result is the object when
    the loop is left or the moves are used up. *)
Fixpoint play_moves (s : Sudoku) (moves : list (Z * Z * Z)) : Sudoku :=
  match moves with
  | [] => s
  | (row, col, num) :: moves' =>
      let (done, b) := is_solved (board s) in
      let s1 := {| board := b; original := original s |} in
      if done then s1
      else play_moves (try_move s1 row col num).2 moves'
  end.

(** Where [solve_mode] takes the puzzle from. *)
Inductive source : Type :=
  | FromFile
  | FromText.

(** [puzzle_input[-5:]]: the last five characters, or all of them when
    there are fewer. *)
Definition last5 (s : str) : str := drop (length s - 5) s.

(** The test of [solve_mode]:
    [len(puzzle_input) > 81 or '.' in puzzle_input[-5:]]. *)
Definition solve_mode_source (s : str) : source :=
  if (81 <? length s) || existsb (fun c => (c =? chr ".")%N) (last5 s)
  then FromFile
  else FromText.

(* ================================================================== *)
(** * Vocabulary of the further statements *)
(* ================================================================== *)


(** The value a step produced, for a step known not to raise. *)
Definition from_ok {A : Type} (dflt : A) (r : result A) : A :=
  match r with
  | Ok a => a
  | Err _ => dflt
  end.

(** Every cell holds a digit 1..9. *)
Definition all_digits (b : grid) : Prop :=
  forall i j, i < 9 -> j < 9 -> (1 <= cell b i j <= 9)%Z.

(** The state of a game: both grids are 9x9, the board has no
    conflict, the given cells hold what [original] holds, and the other
    cells hold 0..9. *)
Definition in_play (s : Sudoku) : Prop :=
  wf (board s) /\ wf (original s) /\ consistent (board s) /\
  forall i j, i < 9 -> j < 9 ->
    (cell (original s) i j <> 0%Z ->
     cell (board s) i j = cell (original s) i j) /\
    (cell (original s) i j = 0%Z -> (0 <= cell (board s) i j <= 9)%Z).

(** The object [from_string] builds from the easy puzzle. *)
Definition easy_game : Sudoku := {| board := easy; original := easy |}.

(** The easy puzzle with its last cell, an empty one, written ['.']. *)
Definition dot_text : str := <[80 := chr "."]> easy_text.

(** [easy] with a second 3 written into its first row. *)
Definition clash : grid := set_cell easy 0 0 3.



(** The other way to fill [twofold]. *)
Definition easy_swapped : grid :=
  set_cell (set_cell (set_cell (set_cell easy_solved 0 1 6) 0 6 8) 1 1 8)
           1 6 6.

(* ================================================================== *)
(** * Reading and writing cells *)
(* ================================================================== *)

Lemma cell_lookup (b : grid) i j :
  wf b -> i < 9 -> j < 9 ->
  exists row, b !! i = Some row /\ length row = 9 /\
              row !! j = Some (cell b i j).
Proof.
  intros [Hlen Hrows] Hi Hj.
  destruct (lookup_lt_is_Some_2 b i) as [row Hrow]; [lia|].
  assert (Hr : length row = 9).
  { rewrite Forall_forall in Hrows. apply Hrows.
    apply list_elem_of_lookup. eauto. }
  destruct (lookup_lt_is_Some_2 row j) as [v Hv]; [lia|].
  exists row. repeat split; auto.
  unfold cell. rewrite Hrow. simpl. rewrite Hv. reflexivity.
Qed.

Lemma wf_set_cell (b : grid) r c v : wf b -> wf (set_cell b r c v).
Proof.
  intros [Hlen Hrows]. split.
  - unfold set_cell. rewrite length_alter. exact Hlen.
  - rewrite Forall_forall in *. intros row Hin.
    apply list_elem_of_lookup in Hin as [k Hk].
    unfold set_cell in Hk. rewrite list_lookup_alter in Hk.
    destruct (decide (r = k)) as [->|Hne].
    + destruct (b !! k) as [row0|] eqn:Hb; simpl in Hk; [|discriminate].
      injection Hk as <-. rewrite length_insert. apply Hrows.
      apply list_elem_of_lookup. eauto.
    + apply Hrows. apply list_elem_of_lookup. eauto.
Qed.

Lemma cell_set_eq (b : grid) r c v :
  wf b -> r < 9 -> c < 9 -> cell (set_cell b r c v) r c = v.
Proof.
  intros Hwf Hr Hc.
  destruct (cell_lookup b r c Hwf Hr Hc) as (row & Hrow & Hlen & _).
  unfold cell, set_cell. rewrite list_lookup_alter_eq, Hrow. simpl.
  rewrite list_lookup_insert_eq by lia. reflexivity.
Qed.

Lemma cell_set_ne (b : grid) r c v i j :
  (i, j) <> (r, c) -> cell (set_cell b r c v) i j = cell b i j.
Proof.
  intros Hne. unfold cell, set_cell.
  destruct (decide (r = i)) as [->|Hri].
  - rewrite list_lookup_alter_eq.
    destruct (b !! i) as [row|]; simpl; [|reflexivity].
    rewrite list_lookup_insert_ne; [reflexivity|]. congruence.
  - rewrite list_lookup_alter_ne by assumption. reflexivity.
Qed.

(** Writing back what a cell holds leaves the board as it is. *)
Lemma set_cell_same (b : grid) r c : set_cell b r c (cell b r c) = b.
Proof.
  unfold set_cell, cell. apply list_eq. intros k.
  rewrite list_lookup_alter.
  destruct (decide (r = k)) as [->|]; [|reflexivity].
  destruct (b !! k) as [row|]; simpl; [|reflexivity].
  f_equal. destruct (row !! c) as [v|] eqn:Hv; simpl.
  - apply list_insert_id. exact Hv.
  - apply list_insert_ge. apply lookup_ge_None. exact Hv.
Qed.

Lemma set_cell_twice (b : grid) r c v w :
  set_cell (set_cell b r c v) r c w = set_cell b r c w.
Proof.
  unfold set_cell. rewrite list_alter_alter_eq.
  apply list_alter_ext; [|reflexivity].
  intros row _. simpl. apply list_insert_insert_eq.
Qed.

(** The undo step of [solve]: zeroing a cell that was empty before the
    digit went in gives the earlier board back. *)
Lemma set_cell_undo (b : grid) r c v :
  cell b r c = 0%Z -> set_cell (set_cell b r c v) r c 0 = b.
Proof.
  intros H0. rewrite set_cell_twice, <- H0. apply set_cell_same.
Qed.

(** Two well-formed boards with the same cells are the same list. *)
Lemma grid_ext (b b' : grid) :
  wf b -> wf b' ->
  (forall i j, i < 9 -> j < 9 -> cell b i j = cell b' i j) -> b = b'.
Proof.
  intros Hb Hb' Heq. apply list_eq. intros i.
  destruct (decide (i < 9)) as [Hi|Hi].
  - destruct (cell_lookup b i 0 Hb Hi) as (row & Hrow & Hlen & _); [lia|].
    destruct (cell_lookup b' i 0 Hb' Hi) as (row' & Hrow' & Hlen' & _); [lia|].
    rewrite Hrow, Hrow'. f_equal. apply list_eq. intros j.
    destruct (decide (j < 9)) as [Hj|Hj].
    + destruct (cell_lookup b i j Hb Hi Hj) as (r1 & Hr1 & _ & Hv).
      destruct (cell_lookup b' i j Hb' Hi Hj) as (r2 & Hr2 & _ & Hv').
      rewrite Hrow in Hr1. injection Hr1 as <-.
      rewrite Hrow' in Hr2. injection Hr2 as <-.
      rewrite Hv, Hv', (Heq i j Hi Hj). reflexivity.
    + rewrite !(proj2 (lookup_ge_None _ _)) by lia. reflexivity.
  - destruct Hb as [Hl _], Hb' as [Hl' _].
    rewrite !(proj2 (lookup_ge_None _ _)) by lia. reflexivity.
Qed.

(* ================================================================== *)
(** * Loops that return from inside: what they return *)
(* ================================================================== *)

Lemma first_some_None {A B} (f : A -> option B) xs :
  first_some f xs = None <-> forall x, In x xs -> f x = None.
Proof.
  induction xs as [|x xs IH]; simpl.
  - split; [intros _ x []|reflexivity].
  - destruct (f x) as [y|] eqn:Hfx.
    + split; [discriminate|]. intros H. rewrite <- Hfx. apply H. auto.
    + rewrite IH. split.
      * intros H z [<-|Hz]; auto.
      * intros H z Hz. apply H. auto.
Qed.

(** Over [range(n)] the loop returns at the least index whose body
    returns. *)
Lemma first_some_seq {B} (f : nat -> option B) n y :
  first_some f (seq 0 n) = Some y <->
  exists k, k < n /\ f k = Some y /\ forall k', k' < k -> f k' = None.
Proof.
  assert (G : forall m s,
    first_some f (seq s m) = Some y <->
    exists k, s <= k < s + m /\ f k = Some y /\
              forall k', s <= k' < k -> f k' = None).
  { induction m as [|m IH]; intros s; simpl.
    - split; [discriminate|]. intros (k & Hk & _). lia.
    - destruct (f s) as [z|] eqn:Hfs.
      + split.
        * intros [= ->]. exists s. split; [lia|]. split; [exact Hfs|].
          intros k' Hk'. lia.
        * intros (k & Hk & Hfk & Hlt).
          destruct (decide (k = s)) as [->|Hne]; [congruence|].
          rewrite (Hlt s) in Hfs by lia. discriminate.
      + rewrite IH. split.
        * intros (k & Hk & Hfk & Hlt). exists k. split; [lia|].
          split; [exact Hfk|]. intros k' Hk'.
          destruct (decide (k' = s)) as [->|Hne]; [exact Hfs|].
          apply Hlt. lia.
        * intros (k & Hk & Hfk & Hlt).
          assert (k <> s) by congruence.
          exists k. split; [lia|]. split; [exact Hfk|].
          intros k' Hk'. apply Hlt. lia. }
  rewrite G. split.
  - intros (k & Hk & Hfk & Hlt). exists k. split; [lia|].
    split; [exact Hfk|]. intros k' Hk'. apply Hlt. lia.
  - intros (k & Hk & Hfk & Hlt). exists k. split; [lia|].
    split; [exact Hfk|]. intros k' Hk'. apply Hlt. lia.
Qed.

Lemma for_cells_None {B} (body : nat -> nat -> option B) :
  for_cells body = None <->
  forall i j, i < 9 -> j < 9 -> body i j = None.
Proof.
  unfold for_cells, range9. rewrite first_some_None. split.
  - intros H i j Hi Hj.
    specialize (H i (proj2 (in_seq 9 0 i) ltac:(lia))).
    rewrite first_some_None in H. apply H. apply in_seq. lia.
  - intros H i Hi. apply in_seq in Hi. apply first_some_None.
    intros j Hj. apply in_seq in Hj. apply H; lia.
Qed.

Lemma for_cells_Some {B} (body : nat -> nat -> option B) y :
  for_cells body = Some y <->
  exists r c, r < 9 /\ c < 9 /\ body r c = Some y /\
    forall i j, i < 9 -> j < 9 -> before i j r c -> body i j = None.
Proof.
  unfold for_cells, range9. rewrite first_some_seq. split.
  - intros (r & Hr & Hrow & Hprev).
    apply first_some_seq in Hrow as (c & Hc & Hbody & Hcols).
    exists r, c. repeat split; auto.
    intros i j Hi Hj [Hlt|[-> Hlt]].
    + specialize (Hprev i Hlt). rewrite first_some_None in Hprev.
      apply Hprev. apply in_seq. lia.
    + apply Hcols. exact Hlt.
  - intros (r & c & Hr & Hc & Hbody & Hprev).
    exists r. split; [exact Hr|]. split.
    + apply first_some_seq. exists c. split; [exact Hc|].
      split; [exact Hbody|]. intros j Hj. apply Hprev; try lia.
      right. lia.
    + intros i Hi. apply first_some_None. intros j Hj.
      apply in_seq in Hj. apply Hprev; try lia. left. exact Hi.
Qed.

(* ================================================================== *)
(** * [is_valid]: what it decides *)
(* ================================================================== *)

Lemma existsb_false {A} (f : A -> bool) xs :
  existsb f xs = false <-> forall x, In x xs -> f x = false.
Proof.
  induction xs as [|x xs IH]; simpl.
  - split; [intros _ x []|reflexivity].
  - rewrite orb_false_iff, IH. split.
    + intros [Hx H] z [<-|Hz]; auto.
    + intros H. split; [|intros z Hz]; apply H; auto.
Qed.

(** The box loop bounds [(x // 3) * 3 .. (x // 3) * 3 + 2] are the triple
    of [x]. *)
Lemma box_range x i :
  x < 9 ->
  (In i (seq ((x / 3) * 3) 3) <-> i < 9 /\ triple i = triple x).
Proof.
  intros Hx. rewrite in_seq. unfold triple.
  destruct (Nat.leb_spec i 2); destruct (Nat.leb_spec i 5);
    do 9 (destruct x as [|x]; [simpl; lia|]); lia.
Qed.

Lemma peer_sym r c i j : peer r c i j -> peer i j r c.
Proof.
  unfold peer. intros [Hne H]. split; [congruence|].
  destruct H as [->|[->|[-> ->]]]; auto.
Qed.

Lemma row_conflict_false (b : grid) num row col :
  row_conflict b num row col = false <->
  forall j, j < 9 -> j <> col -> cell b row j <> num.
Proof.
  unfold row_conflict, range9. rewrite existsb_false. split.
  - intros H j Hj Hne Heq.
    specialize (H j (proj2 (in_seq 9 0 j) ltac:(lia))).
    apply andb_false_iff in H as [H|H].
    + apply Z.eqb_neq in H. contradiction.
    + apply negb_false_iff, Nat.eqb_eq in H. contradiction.
  - intros H j Hj. apply in_seq in Hj.
    destruct (Nat.eqb_spec j col) as [->|Hne].
    + apply andb_false_r.
    + apply andb_false_iff. left. apply Z.eqb_neq. apply H; [lia|exact Hne].
Qed.

Lemma col_conflict_false (b : grid) num row col :
  col_conflict b num row col = false <->
  forall i, i < 9 -> i <> row -> cell b i col <> num.
Proof.
  unfold col_conflict, range9. rewrite existsb_false. split.
  - intros H i Hi Hne Heq.
    specialize (H i (proj2 (in_seq 9 0 i) ltac:(lia))).
    apply andb_false_iff in H as [H|H].
    + apply Z.eqb_neq in H. contradiction.
    + apply negb_false_iff, Nat.eqb_eq in H. contradiction.
  - intros H i Hi. apply in_seq in Hi.
    destruct (Nat.eqb_spec i row) as [->|Hne].
    + apply andb_false_r.
    + apply andb_false_iff. left. apply Z.eqb_neq. apply H; [lia|exact Hne].
Qed.

Lemma box_conflict_false (b : grid) num row col :
  row < 9 -> col < 9 ->
  (box_conflict b num row col = false <->
   forall i j, i < 9 -> j < 9 -> triple i = triple row ->
     triple j = triple col -> (i, j) <> (row, col) -> cell b i j <> num).
Proof.
  intros Hr Hc. unfold box_conflict. cbv zeta. rewrite existsb_false. split.
  - intros H i j Hi Hj Hti Htj Hne Heq.
    specialize (H i (proj2 (box_range row i Hr) (conj Hi Hti))).
    rewrite existsb_false in H.
    specialize (H j (proj2 (box_range col j Hc) (conj Hj Htj))).
    apply andb_false_iff in H as [H|H].
    + apply Z.eqb_neq in H. contradiction.
    + apply negb_false_iff, andb_true_iff in H as [H1 H2].
      apply Nat.eqb_eq in H1, H2. congruence.
  - intros H i Hi. apply (box_range row i Hr) in Hi as [Hi Hti].
    apply existsb_false. intros j Hj.
    apply (box_range col j Hc) in Hj as [Hj Htj].
    destruct (Nat.eqb_spec i row) as [->|Hne1];
      destruct (Nat.eqb_spec j col) as [->|Hne2]; simpl;
      try (rewrite andb_false_r; reflexivity);
      rewrite andb_true_r; apply Z.eqb_neq; apply H; auto; congruence.
Qed.

(** [is_valid] answers [True] exactly when no peer of the cell holds the
    digit. *)
Lemma is_valid_true (b : grid) num row col :
  row < 9 -> col < 9 ->
  (is_valid b num row col = true <->
   forall i j, i < 9 -> j < 9 -> peer row col i j -> cell b i j <> num).
Proof.
  intros Hr Hc. unfold is_valid.
  destruct (row_conflict b num row col) eqn:Hrow.
  { split; [discriminate|]. intros H. exfalso.
    apply not_false_iff_true in Hrow. apply Hrow.
    apply row_conflict_false. intros j Hj Hne.
    apply H; auto. split; [congruence|]. auto. }
  destruct (col_conflict b num row col) eqn:Hcol.
  { split; [discriminate|]. intros H. exfalso.
    apply not_false_iff_true in Hcol. apply Hcol.
    apply col_conflict_false. intros i Hi Hne.
    apply H; auto. split; [congruence|]. auto. }
  destruct (box_conflict b num row col) eqn:Hbox.
  { split; [discriminate|]. intros H. exfalso.
    apply not_false_iff_true in Hbox. apply Hbox.
    apply box_conflict_false; auto. intros i j Hi Hj Hti Htj Hne.
    apply H; auto. split; auto. }
  split; [intros _|reflexivity].
  intros i j Hi Hj [Hne [->|[->|[Hti Htj]]]].
  - apply (proj1 (row_conflict_false b num row col) Hrow); auto; congruence.
  - apply (proj1 (col_conflict_false b num row col) Hcol); auto; congruence.
  - apply (proj1 (box_conflict_false b num row col Hr Hc) Hbox); auto.
Qed.

(** The cell under test is never compared, so what it holds does not
    matter. *)
Lemma is_valid_set_self (b : grid) num row col v :
  row < 9 -> col < 9 ->
  is_valid (set_cell b row col v) num row col = is_valid b num row col.
Proof.
  intros Hr Hc. apply eq_true_iff_eq. rewrite !is_valid_true by assumption.
  split; intros H i j Hi Hj Hp.
  - rewrite <- (cell_set_ne b row col v i j) by apply Hp. auto.
  - rewrite cell_set_ne by apply Hp. auto.
Qed.

(* ================================================================== *)
(** * [find_empty]: what it returns *)
(* ================================================================== *)

Lemma find_empty_None (b : grid) : find_empty b = None <-> full b.
Proof.
  unfold find_empty, full. rewrite for_cells_None.
  split; intros H i j Hi Hj; specialize (H i j Hi Hj).
  - destruct (Z.eqb_spec (cell b i j) 0); [discriminate|assumption].
  - destruct (Z.eqb_spec (cell b i j) 0); [contradiction|reflexivity].
Qed.

Lemma find_empty_Some (b : grid) r c :
  find_empty b = Some (r, c) <->
  r < 9 /\ c < 9 /\ cell b r c = 0%Z /\
  forall i j, i < 9 -> j < 9 -> before i j r c -> cell b i j <> 0%Z.
Proof.
  unfold find_empty. rewrite for_cells_Some. split.
  - intros (r' & c' & Hr & Hc & Hbody & Hprev).
    destruct (Z.eqb_spec (cell b r' c') 0) as [H0|]; [|discriminate].
    injection Hbody as -> ->. repeat split; auto.
    intros i j Hi Hj Hb. specialize (Hprev i j Hi Hj Hb).
    destruct (Z.eqb_spec (cell b i j) 0); [discriminate|assumption].
  - intros (Hr & Hc & H0 & Hprev). exists r, c. repeat split; auto.
    + rewrite H0. reflexivity.
    + intros i j Hi Hj Hb. specialize (Hprev i j Hi Hj Hb).
      destruct (Z.eqb_spec (cell b i j) 0); [contradiction|reflexivity].
Qed.

(* ================================================================== *)
(** * Counting empty cells *)
(* ================================================================== *)

Lemma empties_le (b : grid) : empties b <= 81.
Proof.
  unfold empties.
  etransitivity; [apply List.filter_length_le|].
  rewrite length_prod. reflexivity.
Qed.

Lemma filter_length_agree {A} (f g : A -> bool) xs :
  (forall y, In y xs -> g y = f y) ->
  length (List.filter g xs) = length (List.filter f xs).
Proof.
  induction xs as [|y xs IH]; simpl; intros H; [reflexivity|].
  rewrite (H y) by auto. destruct (f y); simpl; rewrite IH; auto.
Qed.

(** Switching the test off at one element that occurs once drops the
    count by one. *)
Lemma filter_length_drop {A} (f g : A -> bool) x xs :
  NoDup xs -> In x xs -> f x = true -> g x = false ->
  (forall y, y <> x -> g y = f y) ->
  S (length (List.filter g xs)) = length (List.filter f xs).
Proof.
  intros Hnd Hin Hfx Hgx Hoff.
  induction Hnd as [|y xs Hy Hnd IH]; [destruct Hin|].
  simpl. destruct Hin as [->|Hin].
  - rewrite Hfx, Hgx. simpl. f_equal. apply filter_length_agree.
    intros z Hz. apply Hoff. intros ->. apply Hy, list_elem_of_In, Hz.
  - assert (y <> x).
    { intros ->. apply Hy, list_elem_of_In, Hin. }
    rewrite (Hoff y) by assumption.
    destruct (f y); simpl; rewrite <- IH; auto.
Qed.

Lemma NoDup_cells : NoDup (list_prod range9 range9).
Proof. apply (bool_decide_unpack _). vm_compute. reflexivity. Qed.

(** Each placement of [solve] removes one empty cell. *)
Lemma empties_set_cell (b : grid) r c v :
  wf b -> r < 9 -> c < 9 -> cell b r c = 0%Z -> v <> 0%Z ->
  S (empties (set_cell b r c v)) = empties b.
Proof.
  intros Hwf Hr Hc H0 Hv. unfold empties.
  apply (filter_length_drop _ _ (r, c)).
  - apply NoDup_cells.
  - apply in_prod; apply in_seq; lia.
  - simpl. rewrite H0. reflexivity.
  - simpl. rewrite cell_set_eq by assumption. apply Z.eqb_neq, Hv.
  - intros [i j] Hne. simpl. rewrite cell_set_ne by assumption. reflexivity.
Qed.

Lemma digits_range d : In d digits <-> (1 <= d <= 9)%Z.
Proof.
  unfold digits. rewrite <- list_elem_of_In, elem_of_seqZ. lia.
Qed.

(* ================================================================== *)
(** * The digit loop of [solve] *)
(* ================================================================== *)

Section DigitLoop.
Variable rec : grid -> option (bool * grid).
Variables (b : grid) (row col : nat).
Hypothesis Hempty : cell b row col = 0%Z.

(** When the recursive call restores the board it fails on, every
    iteration starts on [b] itself; the loop fails only if every valid
    digit failed, and succeeds with the board of the first recursive
    call that succeeded. *)
Lemma try_digits_spec nums :
  rec_restores rec b row col nums ->
  exists res b', try_digits rec row col nums b = Some (res, b') /\
    (res = false ->
       b' = b /\
       forall d, In d nums -> is_valid b d row col = true ->
         rec (set_cell b row col d) = Some (false, set_cell b row col d)) /\
    (res = true ->
       exists d, In d nums /\ is_valid b d row col = true /\
                 rec (set_cell b row col d) = Some (true, b')).
Proof.
  induction nums as [|num nums IH]; intros Hrec; simpl.
  - exists false, b. split; [reflexivity|]. split; [|discriminate].
    intros _. split; [reflexivity|]. intros d [].
  - assert (Htail : rec_restores rec b row col nums).
    { intros d Hd. apply Hrec. right. exact Hd. }
    destruct (IH Htail) as (res & b' & Hloop & Hfalse & Htrue).
    destruct (is_valid b num row col) eqn:Hvalid.
    + destruct (Hrec num (or_introl eq_refl) Hvalid)
        as (res1 & b1 & Hcall & Hback).
      rewrite Hcall. destruct res1.
      * exists true, b1. split; [reflexivity|]. split; [discriminate|].
        intros _. exists num. auto.
      * rewrite (Hback eq_refl), (set_cell_undo b row col num Hempty).
        exists res, b'. split; [exact Hloop|]. split.
        -- intros Hres. destruct (Hfalse Hres) as [-> Hall].
           split; [reflexivity|]. intros d [<-|Hd] Hv.
           ++ rewrite Hcall, (Hback eq_refl). reflexivity.
           ++ apply Hall; assumption.
        -- intros Hres. destruct (Htrue Hres) as (d & Hd & Hv & Hr).
           exists d. auto.
    + exists res, b'. split; [exact Hloop|]. split.
      * intros Hres. destruct (Hfalse Hres) as [-> Hall].
        split; [reflexivity|]. intros d [<-|Hd] Hv; [congruence|].
        apply Hall; assumption.
      * intros Hres. destruct (Htrue Hres) as (d & Hd & Hv & Hr).
        exists d. auto.
Qed.
End DigitLoop.

(* ================================================================== *)
(** * [solve]: termination, restoration, soundness, completeness *)
(* ================================================================== *)

(** The body of [solve] once a frame is granted. *)
Lemma solve_fuel_S fuel (b : grid) :
  solve_fuel (S fuel) b =
  match find_empty b with
  | None => Some (true, b)
  | Some (row, col) => try_digits (solve_fuel fuel) row col digits b
  end.
Proof. reflexivity. Qed.

(** With more frames than empty cells [solve] returns, and a [False]
    return leaves the board it was given. *)
Lemma solve_fuel_total fuel : forall b : grid,
  wf b -> empties b < fuel ->
  exists res b', solve_fuel fuel b = Some (res, b') /\
                 (res = false -> b' = b).
Proof.
  induction fuel as [|fuel IH]; intros b Hwf Hfuel; [lia|].
  rewrite solve_fuel_S. destruct (find_empty b) as [[r c]|] eqn:Hfind.
  - apply find_empty_Some in Hfind as (Hr & Hc & H0 & _).
    destruct (try_digits_spec (solve_fuel fuel) b r c H0 digits)
      as (res & b' & Hrun & Hfalse & _).
    { intros d Hd _. apply IH; [apply wf_set_cell, Hwf|].
      apply digits_range in Hd.
      pose proof (empties_set_cell b r c d Hwf Hr Hc H0 ltac:(lia)). lia. }
    exists res, b'. split; [exact Hrun|]. intros Hres. apply Hfalse, Hres.
  - exists true, b. split; [reflexivity|discriminate].
Qed.

(** More frames never change an answer already given. *)
Lemma try_digits_mono (rec rec' : grid -> option (bool * grid)) row col :
  (forall b r, rec b = Some r -> rec' b = Some r) ->
  forall nums b r,
    try_digits rec row col nums b = Some r ->
    try_digits rec' row col nums b = Some r.
Proof.
  intros Hrec. induction nums as [|num nums IH]; intros b r; simpl; [auto|].
  destruct (is_valid b num row col); [|apply IH].
  destruct (rec (set_cell b row col num)) as [[[] b1]|] eqn:Hcall;
    [| |discriminate]; rewrite (Hrec _ _ Hcall); [auto|apply IH].
Qed.

Lemma solve_fuel_mono fuel : forall fuel' (b : grid) r,
  fuel <= fuel' -> solve_fuel fuel b = Some r -> solve_fuel fuel' b = Some r.
Proof.
  induction fuel as [|fuel IH]; intros fuel' b r Hle; [discriminate|].
  destruct fuel' as [|fuel']; [lia|]. rewrite !solve_fuel_S.
  destruct (find_empty b) as [[row col]|]; [|auto].
  apply try_digits_mono. intros b1 r1. apply IH. lia.
Qed.

(** [solve] gives the answer of any sufficient number of frames. *)
Lemma solve_fuel_solve fuel (b : grid) :
  wf b -> empties b < fuel -> solve_fuel fuel b = solve b.
Proof.
  intros Hwf Hfuel. pose proof (empties_le b) as Hle. unfold solve.
  destruct (Nat.le_ge_cases fuel 82) as [Hcmp|Hcmp].
  - destruct (solve_fuel_total fuel b Hwf Hfuel) as (res & b' & Hrun & _).
    rewrite Hrun. symmetry. apply (solve_fuel_mono fuel); assumption.
  - destruct (solve_fuel_total 82 b Hwf ltac:(lia)) as (res & b' & Hrun & _).
    rewrite Hrun. apply (solve_fuel_mono 82); assumption.
Qed.

(** A digit that passes [is_valid] on a conflict-free cell keeps every
    cell that was empty or conflict-free so. *)
Lemma placement_keeps_valid (b : grid) r c d i j :
  wf b -> r < 9 -> c < 9 -> i < 9 -> j < 9 ->
  cell b r c = 0%Z -> d <> 0%Z -> is_valid b d r c = true ->
  cell b i j = 0%Z \/ valid_at b i j ->
  let b1 := set_cell b r c d in
  cell b1 i j = 0%Z \/ valid_at b1 i j.
Proof.
  intros Hwf Hr Hc Hi Hj H0 Hd Hvalid Hgood b1. subst b1.
  destruct (decide ((i, j) = (r, c))) as [[= -> ->]|Hne].
  - right. unfold valid_at. rewrite cell_set_eq by assumption.
    rewrite is_valid_set_self by assumption. exact Hvalid.
  - rewrite cell_set_ne by assumption.
    destruct Hgood as [Hz|Hv]; [left; exact Hz|right].
    unfold valid_at in *. rewrite cell_set_ne by assumption.
    apply is_valid_true; [assumption..|].
    intros i' j' Hi' Hj' Hpeer Heq.
    destruct (decide ((i', j') = (r, c))) as [[= -> ->]|Hne'].
    + rewrite cell_set_eq in Heq by assumption.
      apply (proj1 (is_valid_true b d r c Hr Hc) Hvalid i j Hi Hj).
      * apply peer_sym, Hpeer.
      * congruence.
    + rewrite cell_set_ne in Heq by assumption.
      apply (proj1 (is_valid_true b _ i j Hi Hj) Hv i' j' Hi' Hj' Hpeer Heq).
Qed.

Lemma solve_fuel_sound fuel : forall (b b' : grid),
  wf b -> empties b < fuel ->
  solve_fuel fuel b = Some (true, b') -> solved_from b b'.
Proof.
  induction fuel as [|fuel IH]; intros b b' Hwf Hfuel Hrun; [lia|].
  rewrite solve_fuel_S in Hrun. destruct (find_empty b) as [[r c]|] eqn:Hfind.
  - apply find_empty_Some in Hfind as (Hr & Hc & H0 & _).
    assert (Hsmall : forall d, In d digits ->
              empties (set_cell b r c d) < fuel).
    { intros d Hd. apply digits_range in Hd.
      pose proof (empties_set_cell b r c d Hwf Hr Hc H0 ltac:(lia)). lia. }
    destruct (try_digits_spec (solve_fuel fuel) b r c H0 digits)
      as (res & b1 & Hrun' & _ & Htrue).
    { intros d Hd _. apply solve_fuel_total; [apply wf_set_cell, Hwf|].
      apply Hsmall, Hd. }
    rewrite Hrun in Hrun'. injection Hrun' as <- <-.
    destruct (Htrue eq_refl) as (d & Hd & Hvalid & Hcall).
    apply IH in Hcall as (Hwf' & Hfull & Hext & Hkeep);
      [|apply wf_set_cell, Hwf|apply Hsmall, Hd].
    apply digits_range in Hd.
    assert (Hrc : cell b' r c = d).
    { destruct (Hext r c Hr Hc) as [Hsame _].
      rewrite cell_set_eq in Hsame by assumption. apply Hsame. lia. }
    split; [exact Hwf'|]. split; [exact Hfull|]. split.
    + intros i j Hi Hj.
      destruct (decide ((i, j) = (r, c))) as [[= -> ->]|Hne].
      * split; [congruence|]. intros _. lia.
      * destruct (Hext i j Hi Hj) as [Hsame Hfill].
        rewrite cell_set_ne in Hsame, Hfill by assumption. auto.
    + intros i j Hi Hj Hgood. apply Hkeep; [assumption..|].
      apply placement_keeps_valid; auto. lia.
  - injection Hrun as <-. apply find_empty_None in Hfind.
    split; [exact Hwf|]. split; [exact Hfind|]. split.
    + intros i j Hi Hj. split; [reflexivity|].
      intros Hz. destruct (Hfind i j Hi Hj Hz).
    + intros i j Hi Hj [Hz|Hv]; [destruct (Hfind i j Hi Hj Hz)|exact Hv].
Qed.

(* ================================================================== *)
(** * [is_solved]: verdict and board *)
(* ================================================================== *)

(** One pass over the columns of row [i] returns the board unchanged,
    with the conjunction of the per-cell answers. *)
Lemma check_cols_spec i : forall js (b : grid),
  i < 9 -> (forall j, In j js -> j < 9) ->
  check_cols i js b =
  (forallb (fun j => is_valid b (cell b i j) i j) js, b).
Proof.
  induction js as [|j js IH]; intros b Hi Hjs; [reflexivity|].
  cbn [check_cols forallb]. rewrite set_cell_twice, set_cell_same.
  rewrite is_valid_set_self; [|exact Hi|apply Hjs; left; reflexivity].
  destruct (is_valid b (cell b i j) i j); cbn [negb andb]; [|reflexivity].
  apply IH; [exact Hi|]. intros j' Hj'. apply Hjs. right. exact Hj'.
Qed.

Lemma check_rows_spec : forall rows (b : grid),
  (forall i, In i rows -> i < 9) ->
  check_rows rows b =
  (forallb (fun i =>
     forallb (fun j => is_valid b (cell b i j) i j) range9) rows, b).
Proof.
  induction rows as [|i rows IH]; intros b Hrows; [reflexivity|].
  cbn [check_rows forallb]. rewrite check_cols_spec.
  - destruct (forallb _ range9); cbn [andb]; [|reflexivity].
    apply IH. intros i' Hi'. apply Hrows. right. exact Hi'.
  - apply Hrows. left. reflexivity.
  - intros j Hj. apply in_seq in Hj. lia.
Qed.

Lemma is_solved_board (b : grid) : (is_solved b).2 = b.
Proof.
  unfold is_solved. destruct (existsb _ range9); [reflexivity|].
  rewrite check_rows_spec; [reflexivity|].
  intros i Hi. apply in_seq in Hi. lia.
Qed.

Lemma is_solved_true (b : grid) :
  (is_solved b).1 = true <->
  full b /\ forall i j, i < 9 -> j < 9 -> valid_at b i j.
Proof.
  unfold is_solved.
  destruct (existsb _ range9) eqn:Hany.
  - cbn [fst]. split; [discriminate|]. intros [Hfull _]. exfalso.
    apply existsb_exists in Hany as (i & Hi & Hrow).
    apply existsb_exists in Hrow as (j & Hj & Hz).
    apply in_seq in Hi, Hj. apply Z.eqb_eq in Hz.
    apply (Hfull i j); [lia..|exact Hz].
  - rewrite check_rows_spec by (intros i Hi; apply in_seq in Hi; lia).
    cbn [fst]. rewrite forallb_forall. split.
    + intros Hall. split.
      * intros i j Hi Hj Hz.
        rewrite existsb_false in Hany.
        specialize (Hany i (proj2 (in_seq 9 0 i) ltac:(lia))).
        rewrite existsb_false in Hany.
        specialize (Hany j (proj2 (in_seq 9 0 j) ltac:(lia))).
        apply Z.eqb_neq in Hany. contradiction.
      * intros i j Hi Hj.
        specialize (Hall i (proj2 (in_seq 9 0 i) ltac:(lia))).
        rewrite forallb_forall in Hall.
        apply (Hall j). apply in_seq. lia.
    + intros [_ Hall] i Hi. apply in_seq in Hi.
      apply forallb_forall. intros j Hj. apply in_seq in Hj.
      apply Hall; lia.
Qed.

(** On a conflict-free start a [True] return leaves a completion. *)
Lemma solved_from_completion (b b' : grid) :
  consistent b -> solved_from b b' -> completion b b'.
Proof.
  intros Hcons (Hwf' & Hfull & Hext & Hkeep).
  split; [exact Hwf'|]. split; [exact Hext|].
  apply is_solved_true. split; [exact Hfull|].
  intros i j Hi Hj. apply Hkeep; [assumption..|].
  destruct (Z.eq_dec (cell b i j) 0%Z) as [Hz|Hnz]; [left; exact Hz|].
  right. apply Hcons; assumption.
Qed.

(** The digit a completion holds at an empty cell passes [is_valid] on
    the board being completed, and the completion still completes the
    board with that digit written. *)
Lemma completion_digit_valid (b s : grid) r c :
  wf b -> r < 9 -> c < 9 -> completion b s -> cell b r c = 0%Z ->
  (1 <= cell s r c <= 9)%Z /\ is_valid b (cell s r c) r c = true /\
  completion (set_cell b r c (cell s r c)) s.
Proof.
  intros Hwfb Hr Hc (Hwf & Hext & Hsolved) H0.
  apply is_solved_true in Hsolved as [Hfull Hvalid].
  assert (Hd : (1 <= cell s r c <= 9)%Z) by (apply (Hext r c); assumption).
  split; [exact Hd|]. split.
  - apply is_valid_true; [assumption..|].
    intros i j Hi Hj Hpeer Heq.
    assert (Hs : cell s i j = cell b i j).
    { apply (Hext i j); [assumption..|]. lia. }
    specialize (Hvalid r c Hr Hc). unfold valid_at in Hvalid.
    apply (proj1 (is_valid_true s _ r c Hr Hc) Hvalid i j Hi Hj Hpeer).
    congruence.
  - split; [exact Hwf|]. split.
    + intros i j Hi Hj.
      destruct (decide ((i, j) = (r, c))) as [[= -> ->]|Hne].
      * rewrite cell_set_eq by assumption.
        split; [reflexivity|]. intros Hz. lia.
      * rewrite cell_set_ne by assumption. apply Hext; assumption.
    + apply is_solved_true. split; assumption.
Qed.

(** If the board has a completion, [solve] returns [True]. *)
Lemma solve_fuel_complete fuel : forall (b s : grid),
  wf b -> empties b < fuel -> completion b s ->
  exists b', solve_fuel fuel b = Some (true, b').
Proof.
  induction fuel as [|fuel IH]; intros b s Hwf Hfuel Hcomp; [lia|].
  rewrite solve_fuel_S. destruct (find_empty b) as [[r c]|] eqn:Hfind.
  - apply find_empty_Some in Hfind as (Hr & Hc & H0 & _).
    assert (Hsmall : forall d, In d digits ->
              empties (set_cell b r c d) < fuel).
    { intros d Hd. apply digits_range in Hd.
      pose proof (empties_set_cell b r c d Hwf Hr Hc H0 ltac:(lia)). lia. }
    destruct (try_digits_spec (solve_fuel fuel) b r c H0 digits)
      as (res & b1 & Hrun & Hfalse & _).
    { intros d Hd _. apply solve_fuel_total; [apply wf_set_cell, Hwf|].
      apply Hsmall, Hd. }
    destruct res; [exists b1; exact Hrun|].
    destruct (Hfalse eq_refl) as [_ Hall].
    destruct (completion_digit_valid b s r c Hwf Hr Hc Hcomp H0)
      as (Hd & Hvalid & Hcomp').
    apply digits_range in Hd.
    destruct (IH (set_cell b r c (cell s r c)) s) as [b2 Hb2];
      [apply wf_set_cell, Hwf|apply Hsmall, Hd|exact Hcomp'|].
    rewrite (Hall _ Hd Hvalid) in Hb2. discriminate.
  - eauto.
Qed.

(* ================================================================== *)
(** * The example boards *)
(* ================================================================== *)

Lemma consistentb_true (b : grid) : consistentb b = true -> consistent b.
Proof.
  unfold consistentb. rewrite forallb_forall. intros H i j Hi Hj Hnz.
  specialize (H i (proj2 (in_seq 9 0 i) ltac:(lia))).
  rewrite forallb_forall in H.
  specialize (H j (proj2 (in_seq 9 0 j) ltac:(lia))).
  apply orb_true_iff in H as [H|H]; [|exact H].
  apply Z.eqb_eq in H. contradiction.
Qed.

Lemma wf_easy : wf easy.
Proof. split; [reflexivity|repeat constructor]. Qed.

Lemma consistent_easy : consistent easy.
Proof. apply consistentb_true. vm_compute. reflexivity. Qed.

Lemma wf_easy_solved : wf easy_solved.
Proof. split; [reflexivity|repeat constructor]. Qed.

Lemma wf_blank : wf blank.
Proof. split; [reflexivity|repeat constructor]. Qed.

Lemma wf_fives : wf fives.
Proof. split; [reflexivity|repeat constructor]. Qed.

Lemma wf_stuck : wf stuck.
Proof. split; [reflexivity|repeat constructor]. Qed.

Lemma wf_dead_end : wf dead_end.
Proof. split; [reflexivity|repeat constructor]. Qed.

(* ================================================================== *)
(** * [get_hint]: the two scans *)
(* ================================================================== *)

Lemma first_some_map {A B C} (f : B -> option C) (g : A -> B) xs :
  first_some f (map g xs) = first_some (fun x => f (g x)) xs.
Proof.
  induction xs as [|x xs IH]; simpl; [reflexivity|].
  destruct (f (g x)); [reflexivity|exact IH].
Qed.

(** The digit loop of the second scan returns the least digit that
    passes the test. *)
Lemma first_digit {B} (p : Z -> bool) (g : Z -> B) y :
  first_some (fun num => if p num then Some (g num) else None) digits
    = Some y <->
  exists d, In d digits /\ p d = true /\ y = g d /\
            forall d', In d' digits -> p d' = true -> (d <= d')%Z.
Proof.
  change digits with (map (fun k => (Z.of_nat k + 1)%Z) (seq 0 9)) at 1.
  rewrite first_some_map, first_some_seq. split.
  - intros (k & Hk & Hbody & Hprev).
    destruct (p (Z.of_nat k + 1)%Z) eqn:Hp; [|discriminate].
    injection Hbody as <-. exists (Z.of_nat k + 1)%Z.
    split; [apply digits_range; lia|]. split; [exact Hp|].
    split; [reflexivity|]. intros d' Hd' Hp'.
    apply digits_range in Hd'.
    destruct (Z_lt_le_dec d' (Z.of_nat k + 1)) as [Hlt|]; [|assumption].
    specialize (Hprev (Z.to_nat (d' - 1)) ltac:(lia)).
    replace (Z.of_nat (Z.to_nat (d' - 1)) + 1)%Z with d' in Hprev by lia.
    rewrite Hp' in Hprev. discriminate.
  - intros (d & Hd & Hp & -> & Hleast). apply digits_range in Hd.
    exists (Z.to_nat (d - 1)).
    replace (Z.of_nat (Z.to_nat (d - 1)) + 1)%Z with d by lia.
    split; [lia|]. rewrite Hp. split; [reflexivity|].
    intros k' Hk'. destruct (p (Z.of_nat k' + 1)%Z) eqn:Hp'; [|reflexivity].
    assert (d <= Z.of_nat k' + 1)%Z; [|lia].
    apply Hleast; [|exact Hp']. apply digits_range. lia.
Qed.

Lemma singleton_list {A} (d : A) xs :
  NoDup xs -> In d xs -> (forall x, In x xs -> x = d) -> xs = [d].
Proof.
  intros Hnd Hin Hall. destruct xs as [|a xs]; [destruct Hin|].
  assert (a = d) as -> by (apply Hall; left; reflexivity).
  destruct xs as [|a' xs]; [reflexivity|].
  assert (a' = d) as -> by (apply Hall; right; left; reflexivity).
  apply NoDup_cons in Hnd as [Hnot _]. exfalso. apply Hnot.
  left.
Qed.

Lemma NoDup_digits : NoDup digits.
Proof. apply (bool_decide_unpack _). vm_compute. reflexivity. Qed.

Lemma valid_nums_In (b : grid) i j d :
  In d (valid_nums b i j) <-> candidate b i j d.
Proof. unfold valid_nums, candidate. apply filter_In. Qed.

(** [len(valid_nums) == 1] says that exactly one digit passes. *)
Lemma valid_nums_single (b : grid) i j d :
  valid_nums b i j = [d] <->
  candidate b i j d /\ forall d', candidate b i j d' -> d' = d.
Proof.
  split.
  - intros Heq. split.
    + apply valid_nums_In. rewrite Heq. left. reflexivity.
    + intros d' Hd'. apply valid_nums_In in Hd'. rewrite Heq in Hd'.
      destruct Hd' as [<-|[]]. reflexivity.
  - intros [Hd Huniq]. apply singleton_list.
    + apply NoDup_ListNoDup, List.NoDup_filter, NoDup_ListNoDup, NoDup_digits.
    + apply valid_nums_In, Hd.
    + intros x Hx. apply Huniq, valid_nums_In, Hx.
Qed.

Lemma single_at_Some (b : grid) i j h :
  single_at b i j = Some h <-> exists d, h = (i, j, d) /\ forced b i j d.
Proof.
  unfold single_at, forced.
  destruct (Z.eqb_spec (cell b i j) 0) as [H0|Hnz].
  - split.
    + destruct (valid_nums b i j) as [|d [|d2 l]] eqn:Hnums;
        try discriminate.
      intros [= <-]. exists d. split; [reflexivity|].
      split; [exact H0|]. apply valid_nums_single, Hnums.
    + intros (d & -> & _ & Hd). apply valid_nums_single in Hd.
      rewrite Hd. reflexivity.
  - split; [discriminate|]. intros (d & _ & H0 & _). contradiction.
Qed.

Lemma single_at_None (b : grid) i j :
  single_at b i j = None <-> forall d, ~ forced b i j d.
Proof.
  split.
  - intros Hnone d Hd.
    assert (single_at b i j = Some (i, j, d)) by (apply single_at_Some; eauto).
    congruence.
  - intros Hno. destruct (single_at b i j) as [h|] eqn:Hs; [|reflexivity].
    apply single_at_Some in Hs as (d & _ & Hd). destruct (Hno d Hd).
Qed.

Lemma any_at_Some (b : grid) i j h :
  any_at b i j = Some h <->
  exists d, h = (i, j, d) /\ cell b i j = 0%Z /\ candidate b i j d /\
            forall d', candidate b i j d' -> (d <= d')%Z.
Proof.
  unfold any_at, candidate.
  destruct (Z.eqb_spec (cell b i j) 0) as [H0|Hnz].
  - rewrite (first_digit (fun num => is_valid b num i j)
                         (fun num => (i, j, num))). split.
    + intros (d & Hd & Hv & -> & Hleast). exists d.
      repeat split; auto. intros d' [Hd' Hv']. auto.
    + intros (d & -> & _ & [Hd Hv] & Hleast). exists d.
      repeat split; auto.
  - split; [discriminate|]. intros (d & _ & H0 & _). contradiction.
Qed.

Lemma any_at_None (b : grid) i j :
  any_at b i j = None <->
  (cell b i j = 0%Z -> forall d, ~ candidate b i j d).
Proof.
  unfold any_at, candidate.
  destruct (Z.eqb_spec (cell b i j) 0) as [H0|Hnz].
  - rewrite first_some_None. split.
    + intros Hall _ d [Hd Hv]. specialize (Hall d Hd).
      rewrite Hv in Hall. discriminate.
    + intros Hno d Hd. destruct (is_valid b d i j) eqn:Hv; [|reflexivity].
      destruct (Hno H0 d). auto.
  - split; [intros _ H0; contradiction|reflexivity].
Qed.

(** A cell the first scan would return is one the second scan would
    return something for. *)
Lemma single_at_any_at (b : grid) i j :
  any_at b i j = None -> single_at b i j = None.
Proof.
  intros Hany. apply single_at_None. intros d (H0 & Hd & _).
  apply (proj1 (any_at_None b i j) Hany H0 d Hd).
Qed.

Lemma get_hint_None (b : grid) :
  get_hint b = None <->
  forall i j, i < 9 -> j < 9 -> cell b i j = 0%Z ->
    forall d, ~ candidate b i j d.
Proof.
  unfold get_hint, single_scan, any_scan. split.
  - destruct (for_cells (single_at b)); [discriminate|].
    intros Hany i j Hi Hj. apply any_at_None.
    apply (proj1 (for_cells_None _) Hany); assumption.
  - intros Hno.
    assert (Hany : for_cells (any_at b) = None).
    { apply for_cells_None. intros i j Hi Hj. apply any_at_None.
      apply Hno; assumption. }
    assert (Hsingle : for_cells (single_at b) = None).
    { apply for_cells_None. intros i j Hi Hj. apply single_at_any_at.
      apply (proj1 (for_cells_None _) Hany); assumption. }
    rewrite Hsingle. exact Hany.
Qed.

(* ================================================================== *)
(** * The solver *)
(* ================================================================== *)

(** C1, as the code has it.  [solve] does not inspect the cells that are
    already filled, so the statement needs a start without conflicts: on
    every 9x9 board whose filled cells all pass [is_valid], [solve]
    returns; it returns [True] exactly when the board has a completion
    (a full board that keeps the filled cells, puts a digit 1..9 in each
    empty one and is accepted by [is_solved]); and after a [True] return
    the board is such a completion. *)
Theorem solve_finds_completion (b : grid) :
  wf b -> consistent b ->
  exists res b', solve b = Some (res, b') /\
    (res = true <-> exists s, completion b s) /\
    (res = true -> completion b b').
Proof.
  intros Hwf Hcons. pose proof (empties_le b) as Hle.
  destruct (solve_fuel_total 82 b Hwf ltac:(lia)) as (res & b' & Hrun & _).
  exists res, b'. unfold solve. split; [exact Hrun|].
  assert (Hsound : res = true -> completion b b').
  { intros ->. apply solved_from_completion; [exact Hcons|].
    apply (solve_fuel_sound 82); [exact Hwf|lia|exact Hrun]. }
  split; [|exact Hsound]. split.
  - intros Hres. exists b'. apply Hsound, Hres.
  - intros [s Hs].
    destruct (solve_fuel_complete 82 b s Hwf ltac:(lia) Hs) as [b2 Hb2].
    congruence.
Qed.

Lemma solve_finds_completion_easy :
  solve easy = Some (true, easy_solved) /\
  (is_solved easy_solved).1 = true /\
  exists res b', solve easy = Some (res, b') /\
    (res = true <-> exists s, completion easy s) /\
    (res = true -> completion easy b').
Proof.
  split; [vm_compute; reflexivity|]. split; [vm_compute; reflexivity|].
  exact (solve_finds_completion easy wf_easy consistent_easy).
Defined.

(** C1 as stated fails on a board that is full but not valid: [solve]
    finds no empty cell and returns [True], and [is_solved] rejects the
    board it leaves. *)
Lemma solve_true_not_solved :
  wf fives /\ solve fives = Some (true, fives) /\
  (is_solved fives).1 = false.
Proof.
  split; [exact wf_fives|]. split; vm_compute; reflexivity.
Qed.

(** C2.  On every 9x9 board [solve] returns, and when it returns [False]
    the board it leaves is the board it was given, cell for cell. *)
Theorem solve_false_restores (b : grid) :
  wf b ->
  exists res b', solve b = Some (res, b') /\
    (res = false ->
       b' = b /\ forall i j, i < 9 -> j < 9 -> cell b' i j = cell b i j).
Proof.
  intros Hwf. pose proof (empties_le b) as Hle.
  destruct (solve_fuel_total 82 b Hwf ltac:(lia)) as (res & b' & Hrun & Hback).
  exists res, b'. split; [exact Hrun|].
  intros Hres. rewrite (Hback Hres). auto.
Qed.

Lemma solve_false_restores_dead_end :
  solve dead_end = Some (false, dead_end) /\
  exists res b', solve dead_end = Some (res, b') /\
    (res = false ->
       b' = dead_end /\
       forall i j, i < 9 -> j < 9 -> cell b' i j = cell dead_end i j).
Proof.
  split; [vm_compute; reflexivity|].
  exact (solve_false_restores dead_end wf_dead_end).
Defined.

(** C9.  On every 9x9 board: there are at most 81 empty cells; every
    recursive call of [solve] is made on a board with one empty cell
    fewer (the first empty cell, filled with a digit 1..9); and a call
    that may nest as many frames as there are empty cells, plus the one
    that finds none, returns, with the answer of [solve].  So the
    nesting of recursive calls never exceeds 81 and [solve] is total. *)
Theorem solve_terminates (b : grid) :
  wf b ->
  empties b <= 81 /\
  (forall r c d, find_empty b = Some (r, c) -> In d digits ->
     empties (set_cell b r c d) < empties b) /\
  (forall fuel, empties b < fuel ->
     exists res b', solve_fuel fuel b = Some (res, b') /\
                    solve b = Some (res, b')) /\
  (exists res b', solve b = Some (res, b')).
Proof.
  intros Hwf. pose proof (empties_le b) as Hle.
  split; [exact Hle|]. split; [|split].
  - intros r c d Hfind Hd.
    apply find_empty_Some in Hfind as (Hr & Hc & H0 & _).
    apply digits_range in Hd.
    pose proof (empties_set_cell b r c d Hwf Hr Hc H0 ltac:(lia)). lia.
  - intros fuel Hfuel.
    destruct (solve_fuel_total fuel b Hwf Hfuel) as (res & b' & Hrun & _).
    exists res, b'. split; [exact Hrun|].
    rewrite <- (solve_fuel_solve fuel b Hwf Hfuel). exact Hrun.
  - destruct (solve_fuel_total 82 b Hwf ltac:(lia)) as (res & b' & Hrun & _).
    unfold solve. eauto.
Qed.

Lemma solve_terminates_easy :
  empties easy = 49 /\
  empties easy <= 81 /\
  (forall r c d, find_empty easy = Some (r, c) -> In d digits ->
     empties (set_cell easy r c d) < empties easy) /\
  (forall fuel, empties easy < fuel ->
     exists res b', solve_fuel fuel easy = Some (res, b') /\
                    solve easy = Some (res, b')) /\
  (exists res b', solve easy = Some (res, b')).
Proof.
  split; [vm_compute; reflexivity|].
  exact (solve_terminates easy wf_easy).
Defined.

(* ================================================================== *)
(** * The validity oracle and the scans *)
(* ================================================================== *)

(** C3.  For every 9x9 board, every digit and every position with row and
    column in 0..8, [is_valid] is [True] exactly when no peer of the
    position (another cell of its row, of its column, or of its 3x3 box,
    the boxes being the index triples 0-2, 3-5, 6-8) holds the digit.
    The position itself is not a peer, so what it holds is not
    compared. *)
Theorem is_valid_iff_no_peer (b : grid) (digit : Z) (row col : nat) :
  wf b -> (1 <= digit <= 9)%Z -> row < 9 -> col < 9 ->
  (is_valid b digit row col = true <->
   forall i j, i < 9 -> j < 9 ->
     (i, j) <> (row, col) ->
     i = row \/ j = col \/ (triple i = triple row /\ triple j = triple col) ->
     cell b i j <> digit).
Proof.
  intros _ _ Hr Hc. rewrite is_valid_true by assumption.
  unfold peer. split; intros H i j Hi Hj.
  - intros Hne Hnear. apply H; auto.
  - intros [Hne Hnear]. apply H; auto.
Qed.

Lemma is_valid_iff_no_peer_easy :
  is_valid easy 4 0 0 = true /\ is_valid easy 3 0 0 = false /\
  (is_valid easy 3 0 2 = true <->
   forall i j, i < 9 -> j < 9 ->
     (i, j) <> (0, 2) ->
     i = 0 \/ j = 2 \/ (triple i = triple 0 /\ triple j = triple 2) ->
     cell easy i j <> 3%Z).
Proof.
  split; [vm_compute; reflexivity|]. split; [vm_compute; reflexivity|].
  apply (is_valid_iff_no_peer easy 3 0 2); [exact wf_easy|lia..].
Defined.

(** C7.  [is_solved] leaves the 9x9 board it was called on, whatever
    it answers: the digit it takes out of a cell is written back before
    the next cell is looked at and before any return. *)
Theorem is_solved_preserves_board (b : grid) :
  wf b ->
  (is_solved b).2 = b /\
  forall i j, i < 9 -> j < 9 -> cell (is_solved b).2 i j = cell b i j.
Proof.
  intros _. rewrite is_solved_board. auto.
Qed.

(** The three return paths: an empty cell found ([easy]), a conflict
    found in the verification pass ([fives]), and the board accepted. *)
Lemma is_solved_preserves_board_examples :
  (is_solved easy).1 = false /\
  (is_solved fives).1 = false /\
  (is_solved easy_solved).1 = true /\
  (is_solved easy).2 = easy /\
  (is_solved fives).2 = fives /\
  (is_solved easy_solved).2 = easy_solved.
Proof.
  split; [vm_compute; reflexivity|]. split; [vm_compute; reflexivity|].
  split; [vm_compute; reflexivity|].
  split; [apply (is_solved_preserves_board easy wf_easy)|].
  split; [apply (is_solved_preserves_board fives wf_fives)|].
  apply (is_solved_preserves_board easy_solved wf_easy_solved).
Defined.

(** C8.  [find_empty] returns the first cell holding 0 in row-major
    order, and [None] exactly when no cell holds 0. *)
Theorem find_empty_row_major_first (b : grid) :
  wf b ->
  (find_empty b = None <->
   forall i j, i < 9 -> j < 9 -> cell b i j <> 0%Z) /\
  (forall r c, find_empty b = Some (r, c) <->
     r < 9 /\ c < 9 /\ cell b r c = 0%Z /\
     forall i j, i < 9 -> j < 9 -> i < r \/ (i = r /\ j < c) ->
       cell b i j <> 0%Z).
Proof.
  intros _. split.
  - apply find_empty_None.
  - intros r c. apply find_empty_Some.
Qed.

Lemma find_empty_row_major_first_examples :
  find_empty easy = Some (0, 0) /\
  find_empty easy_solved = None /\
  find_empty (set_cell (set_cell easy_solved 7 2 0) 3 8 0) = Some (3, 8) /\
  (forall i j, i < 9 -> j < 9 -> cell easy_solved i j <> 0%Z).
Proof.
  split; [vm_compute; reflexivity|]. split; [vm_compute; reflexivity|].
  split; [vm_compute; reflexivity|].
  apply (proj1 (proj1 (find_empty_row_major_first easy_solved wf_easy_solved))).
  vm_compute. reflexivity.
Defined.

(* ================================================================== *)
(** * Hints *)
(* ================================================================== *)

(** C4, as the code has it.  [get_hint] returns [None] exactly when no
    empty cell has a digit 1..9 that passes [is_valid]; a full board is
    one such case; and whenever some empty cell has a valid digit a move
    is returned. *)
Theorem get_hint_none_iff_no_move (b : grid) :
  wf b ->
  (get_hint b = None <->
   forall i j, i < 9 -> j < 9 -> cell b i j = 0%Z ->
     forall d, In d digits -> is_valid b d i j = false) /\
  (full b -> get_hint b = None) /\
  ((exists i j d, i < 9 /\ j < 9 /\ cell b i j = 0%Z /\
                  In d digits /\ is_valid b d i j = true) ->
   exists r c d, get_hint b = Some (r, c, d)).
Proof.
  intros _. split; [|split].
  - rewrite get_hint_None. unfold candidate.
    split; intros H i j Hi Hj H0 d.
    + intros Hd. apply not_true_is_false. intros Hv.
      apply (H i j Hi Hj H0 d). auto.
    + intros [Hd Hv]. rewrite (H i j Hi Hj H0 d Hd) in Hv. discriminate.
  - intros Hfull. apply get_hint_None. intros i j Hi Hj H0.
    destruct (Hfull i j Hi Hj H0).
  - intros (i & j & d & Hi & Hj & H0 & Hd & Hv).
    destruct (get_hint b) as [[[r c] d']|] eqn:Hhint; [eauto|].
    exfalso. apply (proj1 (get_hint_None b) Hhint i j Hi Hj H0 d).
    split; assumption.
Qed.

Lemma get_hint_none_iff_no_move_examples :
  get_hint easy_solved = None /\
  exists r c d, get_hint easy = Some (r, c, d).
Proof.
  split.
  - apply (proj1 (proj2 (get_hint_none_iff_no_move easy_solved
                           wf_easy_solved))).
    apply find_empty_None. vm_compute. reflexivity.
  - apply (proj2 (proj2 (get_hint_none_iff_no_move easy wf_easy))).
    exists 0, 0, 4%Z. split; [lia|]. split; [lia|].
    split; [reflexivity|]. split; [|vm_compute; reflexivity].
    apply digits_range. lia.
Defined.

(** C4 as stated fails on a board whose only empty cell admits no
    digit: the cell (0, 0) of [stuck] is empty and [get_hint] returns
    [None]. *)
Lemma get_hint_none_with_empty_cell :
  wf stuck /\ cell stuck 0 0 = 0%Z /\ get_hint stuck = None.
Proof.
  split; [exact wf_stuck|]. split; vm_compute; reflexivity.
Qed.

(** C5.  If some empty cell has exactly one digit that passes
    [is_valid], [get_hint] returns the first such cell in row-major
    order with that digit.  If no cell is of that kind but some empty
    cell has a valid digit, [get_hint] returns an empty cell with the
    least digit valid there, and that cell is the first empty cell in
    row-major order that has a valid digit at all. *)
Theorem get_hint_two_phase (b : grid) :
  wf b ->
  ((exists i j d, i < 9 /\ j < 9 /\ forced b i j d) ->
   exists r c d, get_hint b = Some (r, c, d) /\ r < 9 /\ c < 9 /\
     forced b r c d /\
     forall i j, i < 9 -> j < 9 -> before i j r c ->
       forall d', ~ forced b i j d') /\
  ((forall i j d, i < 9 -> j < 9 -> ~ forced b i j d) ->
   (exists i j d, i < 9 /\ j < 9 /\ cell b i j = 0%Z /\ candidate b i j d) ->
   exists r c d, get_hint b = Some (r, c, d) /\ r < 9 /\ c < 9 /\
     cell b r c = 0%Z /\ candidate b r c d /\
     (forall d', candidate b r c d' -> (d <= d')%Z) /\
     forall i j, i < 9 -> j < 9 -> before i j r c ->
       cell b i j = 0%Z -> forall d', ~ candidate b i j d').
Proof.
  intros _. unfold get_hint, single_scan, any_scan. split.
  - intros (i & j & d & Hi & Hj & Hforced).
    destruct (for_cells (single_at b)) as [h|] eqn:Hscan.
    + apply for_cells_Some in Hscan as (r & c & Hr & Hc & Hat & Hprev).
      apply single_at_Some in Hat as (d0 & -> & Hd0).
      exists r, c, d0. repeat split; try assumption; try apply Hd0.
      intros i' j' Hi' Hj' Hbefore. apply single_at_None.
      apply Hprev; assumption.
    + exfalso.
      apply (proj1 (single_at_None b i j)
               (proj1 (for_cells_None _) Hscan i j Hi Hj) d Hforced).
  - intros Hnone (i & j & d & Hi & Hj & H0 & Hd).
    assert (Hscan : for_cells (single_at b) = None).
    { apply for_cells_None. intros i' j' Hi' Hj'. apply single_at_None.
      intros d'. apply Hnone; assumption. }
    rewrite Hscan.
    destruct (for_cells (any_at b)) as [h|] eqn:Hany.
    + apply for_cells_Some in Hany as (r & c & Hr & Hc & Hat & Hprev).
      apply any_at_Some in Hat as (d0 & -> & H0' & Hd0 & Hleast).
      exists r, c, d0. repeat split; try assumption; try apply Hd0.
      intros i' j' Hi' Hj' Hbefore. apply any_at_None.
      apply Hprev; assumption.
    + exfalso.
      apply (proj1 (any_at_None b i j)
               (proj1 (for_cells_None _) Hany i j Hi Hj) H0 d Hd).
Qed.

(** Both phases at work: on [easy] the first scan finds the forced move
    4 at (4, 5); on the blank board no cell is forced and the second
    scan offers 1 at (0, 0). *)
Lemma get_hint_two_phase_examples :
  get_hint easy = Some (4, 5, 4%Z) /\
  get_hint blank = Some (0, 0, 1%Z) /\
  (exists r c d, get_hint easy = Some (r, c, d) /\ r < 9 /\ c < 9 /\
     forced easy r c d /\
     forall i j, i < 9 -> j < 9 -> before i j r c ->
       forall d', ~ forced easy i j d') /\
  (exists r c d, get_hint blank = Some (r, c, d) /\ r < 9 /\ c < 9 /\
     cell blank r c = 0%Z /\ candidate blank r c d /\
     (forall d', candidate blank r c d' -> (d <= d')%Z) /\
     forall i j, i < 9 -> j < 9 -> before i j r c ->
       cell blank i j = 0%Z -> forall d', ~ candidate blank i j d').
Proof.
  split; [vm_compute; reflexivity|]. split; [vm_compute; reflexivity|].
  split.
  - apply (proj1 (get_hint_two_phase easy wf_easy)).
    exists 4, 5, 4%Z. split; [lia|]. split; [lia|].
    assert (H : single_at easy 4 5 = Some (4, 5, 4%Z))
      by (vm_compute; reflexivity).
    apply single_at_Some in H as (d & [= <-] & Hd). exact Hd.
  - apply (proj2 (get_hint_two_phase blank wf_blank)).
    + intros i j d Hi Hj. apply single_at_None.
      assert (H : single_scan blank = None) by (vm_compute; reflexivity).
      apply (proj1 (for_cells_None _) H); assumption.
    + exists 0, 0, 1%Z. split; [lia|]. split; [lia|].
      split; [reflexivity|]. split; [|vm_compute; reflexivity].
      apply digits_range. lia.
Defined.

(* ================================================================== *)
(** * Construction from a grid *)
(* ================================================================== *)

Lemma cell_rows {f : nat -> nat -> Z} i j :
  i < 9 -> j < 9 ->
  cell (map (fun i => map (fun j => f i j) range9) range9) i j = f i j.
Proof.
  intros Hi Hj.
  do 9 (destruct i as [|i];
        [do 9 (destruct j as [|j]; [reflexivity|]); lia|]).
  lia.
Qed.

Lemma wf_rows (f : nat -> nat -> Z) :
  wf (map (fun i => map (fun j => f i j) range9) range9).
Proof.
  split.
  - rewrite length_map. reflexivity.
  - apply Forall_map, Forall_forall. intros i _.
    rewrite length_map. reflexivity.
Qed.

(** The copy [load_board] takes of a 9x9 grid is that grid. *)
Lemma copy9_wf (g : grid) : wf g -> copy9 g = g.
Proof.
  intros Hwf. apply grid_ext; [apply wf_rows|exact Hwf|].
  intros i j Hi Hj. unfold copy9.
  apply (cell_rows (f := fun i j => cell g i j)); assumption.
Qed.

(** The test of [load_board] fails exactly on grids that are not 9x9. *)
Lemma dimension_test (g : grid) :
  negb (length g =? 9) || existsb (fun row => negb (length row =? 9)) g
    = false <-> wf g.
Proof.
  unfold wf. rewrite orb_false_iff, negb_false_iff, Nat.eqb_eq.
  rewrite existsb_false, Forall_forall.
  split; intros [Hlen Hrows]; (split; [exact Hlen|]); intros row Hrow.
  - apply list_elem_of_In, Hrows in Hrow.
    apply negb_false_iff, Nat.eqb_eq in Hrow. exact Hrow.
  - apply negb_false_iff, Nat.eqb_eq. apply Hrows, list_elem_of_In, Hrow.
Qed.

Lemma init_wf (g : grid) :
  wf g -> init (Some g) = Ok {| board := g; original := g |}.
Proof.
  intros Hwf. unfold init, load_board.
  rewrite (proj2 (dimension_test g) Hwf). cbn [bind board].
  rewrite (copy9_wf g Hwf). rewrite (copy9_wf g Hwf). reflexivity.
Qed.

Lemma init_not_wf (g : grid) :
  ~ wf g -> init (Some g) = Err InvalidDimensions.
Proof.
  intros Hnot. unfold init, load_board.
  destruct (negb (length g =? 9) || _) eqn:Htest; [reflexivity|].
  apply dimension_test in Htest. contradiction.
Qed.

(** C10.  Construction from a grid looks at the dimensions only: every
    grid of nine rows of nine integers is accepted, whatever the
    integers are, and [board] and [original] both hold the grid as
    given; any other grid is refused with [InvalidDimensions]. *)
Theorem init_checks_dimensions_only (g : grid) :
  (length g = 9 /\ Forall (fun row : list Z => length row = 9) g ->
   init (Some g) = Ok {| board := g; original := g |}) /\
  (~ (length g = 9 /\ Forall (fun row : list Z => length row = 9) g) ->
   init (Some g) = Err InvalidDimensions).
Proof.
  split; [apply init_wf|apply init_not_wf].
Qed.

Lemma init_keeps_out_of_range_entries :
  init (Some odd_grid) = Ok {| board := odd_grid; original := odd_grid |} /\
  cell odd_grid 0 0 = 17%Z /\ cell odd_grid 0 1 = (-3)%Z.
Proof.
  split; [|split; reflexivity].
  apply (proj1 (init_checks_dimensions_only odd_grid)).
  split; [reflexivity|repeat constructor].
Defined.

(* ================================================================== *)
(** * Construction from a string *)
(* ================================================================== *)

(** On ASCII the digit tables are the usual ones. *)
Lemma tables_ascii (c : char) :
  (c < 128)%N ->
  isdigit c = ((48 <=? c) && (c <=? 57))%N /\
  int_char c = if ((48 <=? c) && (c <=? 57))%N
               then Some (Z.of_N c - 48)%Z else None.
Proof.
  intros Hc.
  assert (H : forallb (fun n =>
            let c := N.of_nat n in
            Bool.eqb (isdigit c) ((48 <=? c) && (c <=? 57))%N &&
            match int_char c with
            | Some v => ((48 <=? c) && (c <=? 57))%N
                        && (v =? Z.of_N c - 48)%Z
            | None => negb ((48 <=? c) && (c <=? 57))%N
            end) (seq 0 128) = true) by (vm_compute; reflexivity).
  rewrite forallb_forall in H.
  assert (Hin : In (N.to_nat c) (seq 0 128)) by (apply in_seq; lia).
  specialize (H (N.to_nat c) Hin).
  cbv zeta in H. rewrite N2Nat.id in H.
  apply andb_true_iff in H as [H1 H2]. apply Bool.eqb_prop in H1.
  split; [exact H1|].
  destruct (int_char c) as [v|].
  - apply andb_true_iff in H2 as [-> H2]. apply Z.eqb_eq in H2.
    rewrite H2. reflexivity.
  - apply negb_true_iff in H2. rewrite H2. reflexivity.
Qed.

Lemma plain_ascii (c : char) : plain c -> (c < 128)%N.
Proof.
  unfold plain. change (chr ".") with 46%N. change (chr "0") with 48%N.
  change (chr "9") with 57%N. lia.
Qed.

(** What the loop body does with an ASCII character. *)
Lemma parse_char_ascii (c : char) pos :
  (c < 128)%N ->
  (plain c /\ parse_char c pos = Ok (digit_of c)) \/
  (~ plain c /\ parse_char c pos = Err (InvalidCharacter c pos)).
Proof.
  intros Hc. destruct (tables_ascii c Hc) as [Hdig Hint].
  unfold parse_char, plain, digit_of.
  change (chr ".") with 46%N. change (chr "0") with 48%N.
  change (chr "9") with 57%N. rewrite Hdig, Hint.
  destruct (N.eqb_spec c 46) as [->|H46]; [left; split; [lia|reflexivity]|].
  destruct (N.eqb_spec c 48) as [->|H48]; [left; split; [lia|reflexivity]|].
  cbn [orb].
  destruct (N.leb_spec 48 c); destruct (N.leb_spec c 57); cbn [andb];
    try (right; split; [lia|reflexivity]).
  left. split; [lia|].
  destruct (Z.leb_spec 1 (Z.of_N c - 48));
    destruct (Z.leb_spec (Z.of_N c - 48) 9); cbn [andb];
    try lia; reflexivity.
Qed.

(** The errors the loop body can raise. *)
Lemma parse_char_err (c : char) pos e :
  parse_char c pos = Err e -> e = InvalidCharacter c pos \/ e = IntLiteral c.
Proof.
  unfold parse_char.
  destruct (_ || _); [discriminate|].
  destruct (isdigit c); [|intros [= <-]; auto].
  destruct (int_char c) as [v|]; [|intros [= <-]; auto].
  destruct (_ && _); [discriminate|intros [= <-]; auto].
Qed.

Lemma init_err (g : grid) e : init (Some g) = Err e -> e = InvalidDimensions.
Proof.
  unfold init, load_board. destruct (_ || _); cbn [bind].
  - intros [= <-]. reflexivity.
  - discriminate.
Qed.

Lemma first_some_ext {A B} (f g : A -> option B) xs :
  (forall x, f x = g x) -> first_some f xs = first_some g xs.
Proof.
  intros H. induction xs as [|x xs IH]; simpl; [reflexivity|].
  rewrite H, IH. reflexivity.
Qed.

(** A collecting loop raises what its first failing iteration raises. *)
Lemma collect_err_of {A B} (f : A -> result B) xs :
  err_of (collect f xs) = first_some (fun x => err_of (f x)) xs.
Proof.
  induction xs as [|x xs IH]; simpl; [reflexivity|].
  destruct (f x) as [y|e]; simpl; [|reflexivity].
  rewrite <- IH. destruct (collect f xs); reflexivity.
Qed.

Lemma collect_Ok_map {A B} (f : A -> result B) (g : A -> B) xs :
  (forall x, In x xs -> f x = Ok (g x)) -> collect f xs = Ok (map g xs).
Proof.
  induction xs as [|x xs IH]; intros H; simpl; [reflexivity|].
  rewrite (H x) by (left; reflexivity). simpl.
  rewrite IH by (intros z Hz; apply H; right; exact Hz). reflexivity.
Qed.

Lemma rows_err {B} (P : nat -> nat -> result B) :
  err_of (collect (fun i => collect (fun j => P i j) range9) range9)
  = for_cells (fun i j => err_of (P i j)).
Proof.
  unfold for_cells. rewrite collect_err_of.
  apply first_some_ext. intros i. apply collect_err_of.
Qed.

Lemma rows_Ok {B} (P : nat -> nat -> result B) (f : nat -> nat -> B) :
  (forall i j, i < 9 -> j < 9 -> P i j = Ok (f i j)) ->
  collect (fun i => collect (fun j => P i j) range9) range9
  = Ok (map (fun i => map (fun j => f i j) range9) range9).
Proof.
  intros H. apply (collect_Ok_map _ (fun i => map (fun j => f i j) range9)).
  intros i Hi. apply in_seq in Hi.
  apply (collect_Ok_map _ (fun j => f i j)).
  intros j Hj. apply in_seq in Hj. apply H; lia.
Qed.

Lemma err_of_Some {A} (r : result A) e : err_of r = Some e <-> r = Err e.
Proof. destruct r; simpl; split; congruence. Qed.

(** Past the length check, [from_string] is the two loops followed by
    the constructor. *)
Lemma from_string_81 (s : str) :
  length (strip_ws s) = 81 ->
  from_string s =
  do g <- collect (fun i =>
            collect (fun j =>
              parse_char (char_at (strip_ws s) (i * 9 + j)) (i * 9 + j))
              range9) range9;
  init (Some g).
Proof. intros Hlen. unfold from_string. rewrite Hlen. reflexivity. Qed.

Lemma char_at_lookup (t : str) k c :
  t !! k = Some c -> char_at t k = c.
Proof. intros H. unfold char_at. rewrite nth_lookup, H. reflexivity. Qed.

Lemma lookup_char_at (t : str) k :
  k < length t -> t !! k = Some (char_at t k).
Proof.
  intros Hk. destruct (lookup_lt_is_Some_2 t k Hk) as [c Hc].
  rewrite (char_at_lookup t k c Hc). exact Hc.
Qed.

Lemma ascii_char_at (t : str) k :
  ascii_only t -> k < length t -> (char_at t k < 128)%N.
Proof.
  intros Hascii Hk. unfold ascii_only in Hascii.
  rewrite Forall_forall in Hascii. apply Hascii.
  apply list_elem_of_lookup. exists k. apply lookup_char_at, Hk.
Qed.

(** Flat position [k] is row [k / 9], column [k mod 9]. *)
Lemma flat_pos k :
  k < 81 -> k / 9 < 9 /\ k mod 9 < 9 /\ k / 9 * 9 + k mod 9 = k.
Proof.
  intros Hk. pose proof (Nat.div_mod_eq k 9) as Heq.
  pose proof (Nat.mod_upper_bound k 9 ltac:(lia)) as Hmod. lia.
Qed.

(** The error of the two loops on an ASCII string of length 81: the
    first character that is not plain, with its position. *)
Lemma rows_first_bad (t : str) e :
  length t = 81 -> ascii_only t ->
  (for_cells (fun i j =>
     err_of (parse_char (char_at t (i * 9 + j)) (i * 9 + j))) = Some e <->
   exists k c, e = InvalidCharacter c k /\ first_bad t k c).
Proof.
  intros Hlen Hascii. rewrite for_cells_Some. split.
  - intros (r & c0 & Hr & Hc0 & Hbody & Hprev).
    exists (r * 9 + c0), (char_at t (r * 9 + c0)).
    destruct (parse_char_ascii (char_at t (r * 9 + c0)) (r * 9 + c0))
      as [[_ Hok]|[Hbad Herr]];
      [apply ascii_char_at; [exact Hascii|lia]
      |rewrite Hok in Hbody; discriminate|].
    rewrite Herr in Hbody. injection Hbody as <-.
    split; [reflexivity|]. split; [apply lookup_char_at; lia|].
    split; [exact Hbad|]. intros k' c' Hk' Hc'.
    apply char_at_lookup in Hc'. subst c'.
    destruct (flat_pos k' ltac:(lia)) as (Hi & Hj & Hflat).
    specialize (Hprev (k' / 9) (k' mod 9) Hi Hj).
    rewrite Hflat in Hprev.
    destruct (parse_char_ascii (char_at t k') k')
      as [[Hplain _]|[_ Herr']];
      [apply ascii_char_at; [exact Hascii|lia]|exact Hplain|].
    rewrite Herr' in Hprev. unfold before in Hprev.
    discriminate Hprev. lia.
  - intros (k & c & -> & Hk & Hbad & Hprev).
    assert (Hlt : k < 81) by (rewrite <- Hlen; eapply lookup_lt_Some, Hk).
    apply char_at_lookup in Hk. exists (k / 9), (k mod 9).
    destruct (flat_pos k Hlt) as (Hq & Hm & Hflat). rewrite Hflat.
    split; [exact Hq|]. split; [exact Hm|]. split.
    + destruct (parse_char_ascii (char_at t k) k)
        as [[Hplain _]|[_ Herr]];
        [apply ascii_char_at; [exact Hascii|lia]|congruence|].
      rewrite Herr, Hk. reflexivity.
    + intros i j Hi Hj Hbefore. unfold before in Hbefore.
      assert (Hpos : i * 9 + j < k) by lia.
      destruct (parse_char_ascii (char_at t (i * 9 + j)) (i * 9 + j))
        as [[_ Hok]|[Hbad' _]];
        [apply ascii_char_at; [exact Hascii|lia]
        |rewrite Hok; reflexivity|].
      exfalso. apply Hbad'.
      apply (Hprev (i * 9 + j) _ Hpos). apply lookup_char_at. lia.
Qed.

(** The loops of [from_string] raise no length error, and the
    constructor after them raises nothing but a dimension error. *)
Lemma from_string_81_err (s : str) e :
  length (strip_ws s) = 81 ->
  from_string s = Err e ->
  e = InvalidDimensions \/
  for_cells (fun i j =>
    err_of (parse_char (char_at (strip_ws s) (i * 9 + j)) (i * 9 + j)))
  = Some e.
Proof.
  intros Hlen. rewrite (from_string_81 s Hlen), <- rows_err.
  destruct (collect _ range9) as [g|e']; cbn [bind err_of].
  - intros Hinit. left. apply (init_err g e Hinit).
  - intros [= <-]. right. reflexivity.
Qed.

Lemma from_string_81_rows_err (s : str) e :
  length (strip_ws s) = 81 ->
  for_cells (fun i j =>
    err_of (parse_char (char_at (strip_ws s) (i * 9 + j)) (i * 9 + j)))
  = Some e ->
  from_string s = Err e.
Proof.
  intros Hlen. rewrite (from_string_81 s Hlen), <- rows_err.
  intros Herr. apply err_of_Some in Herr. rewrite Herr. reflexivity.
Qed.

Lemma from_string_plain (s : str) :
  length (strip_ws s) = 81 -> Forall plain (strip_ws s) ->
  from_string s = Ok {| board := decode (strip_ws s);
                        original := decode (strip_ws s) |}.
Proof.
  intros Hlen Hplain. rewrite (from_string_81 s Hlen).
  rewrite (rows_Ok _ (fun i j => digit_of (char_at (strip_ws s) (i * 9 + j)))).
  - cbn [bind]. apply init_wf, wf_rows.
  - intros i j Hi Hj.
    assert (Hc : plain (char_at (strip_ws s) (i * 9 + j))).
    { rewrite Forall_forall in Hplain. apply Hplain.
      apply list_elem_of_lookup. exists (i * 9 + j).
      apply lookup_char_at. lia. }
    destruct (parse_char_ascii (char_at (strip_ws s) (i * 9 + j))
                (i * 9 + j) (plain_ascii _ Hc)) as [[_ Hok]|[Hbad _]];
      [exact Hok|contradiction].
Qed.

(** C6, as the code has it.  [from_string] drops every whitespace
    character; it raises the length error exactly when the stripped
    length is not 81.  When the stripped string has 81 characters, all
    ASCII, it raises the character error exactly when some character is
    not ['.'], ['0'] or ['1']..['9'], and the error names the first such
    character and its flat position.  When all 81 characters are plain
    it succeeds, [board] and [original] both hold the decoded grid, and
    ['.'] and ['0'] both decode to the empty cell. *)
Theorem from_string_errors (s : str) :
  (forall c, In c (strip_ws s) <-> In c s /\ isspace c = false) /\
  (forall n, from_string s = Err (InvalidLength n) <->
             n = length (strip_ws s) /\ n <> 81) /\
  (length (strip_ws s) = 81 -> ascii_only (strip_ws s) ->
     (forall c k, from_string s = Err (InvalidCharacter c k) <->
                  first_bad (strip_ws s) k c) /\
     ((exists c k, from_string s = Err (InvalidCharacter c k)) <->
      Exists (fun c => ~ plain c) (strip_ws s))) /\
  (length (strip_ws s) = 81 -> Forall plain (strip_ws s) ->
     from_string s = Ok {| board := decode (strip_ws s);
                           original := decode (strip_ws s) |}) /\
  digit_of (chr ".") = 0%Z /\ digit_of (chr "0") = 0%Z.
Proof.
  split; [|split; [|split; [|split; [|split; reflexivity]]]].
  - intros c. unfold strip_ws. rewrite filter_In, negb_true_iff.
    reflexivity.
  - intros n. split.
    + intros Herr. destruct (Nat.eq_dec (length (strip_ws s)) 81) as [Hlen|Hlen].
      * destruct (from_string_81_err s _ Hlen Herr) as [Hdim|Hcells];
          [discriminate|].
        apply for_cells_Some in Hcells as (r & c0 & _ & _ & Hbody & _).
        apply err_of_Some, parse_char_err in Hbody as [Hbody|Hbody];
          discriminate.
      * unfold from_string in Herr.
        rewrite (proj2 (Nat.eqb_neq _ _) Hlen) in Herr.
        injection Herr as <-. auto.
    + intros [-> Hlen]. unfold from_string.
      rewrite (proj2 (Nat.eqb_neq _ _) Hlen). reflexivity.
  - intros Hlen Hascii.
    assert (Hiff : forall c k,
      from_string s = Err (InvalidCharacter c k) <->
      first_bad (strip_ws s) k c).
    { intros c k. split.
      - intros Herr.
        destruct (from_string_81_err s _ Hlen Herr) as [Hdim|Hcells];
          [discriminate|].
        apply (rows_first_bad _ _ Hlen Hascii) in Hcells
          as (k' & c' & [= -> ->] & Hbad). exact Hbad.
      - intros Hbad. apply (from_string_81_rows_err s _ Hlen).
        apply (rows_first_bad _ _ Hlen Hascii). eauto. }
    split; [exact Hiff|]. split.
    + intros (c & k & Herr). apply Hiff in Herr as (Hk & Hbad & _).
      apply Exists_exists. exists c. split; [|exact Hbad].
      apply list_elem_of_lookup. eauto.
    + intros Hex. apply Exists_exists in Hex as (c & Hin & Hbad).
      apply list_elem_of_lookup in Hin as [k Hk].
      assert (Hlt : k < 81) by (rewrite <- Hlen; eapply lookup_lt_Some, Hk).
      destruct (for_cells (fun i j =>
        err_of (parse_char (char_at (strip_ws s) (i * 9 + j)) (i * 9 + j))))
        as [e|] eqn:Hcells.
      * pose proof Hcells as Hrows.
        apply (rows_first_bad _ _ Hlen Hascii) in Hcells
          as (k' & c' & -> & _).
        exists c', k'. apply (from_string_81_rows_err s _ Hlen Hrows).
      * exfalso. destruct (flat_pos k Hlt) as (Hq & Hm & Hflat).
        pose proof (proj1 (for_cells_None _) Hcells _ _ Hq Hm) as Hnone.
        cbv beta in Hnone. rewrite Hflat, (char_at_lookup _ _ _ Hk) in Hnone.
        destruct (parse_char_ascii c k) as [[Hplain _]|[_ Herr]].
        -- rewrite <- (char_at_lookup _ _ _ Hk).
           apply ascii_char_at; [exact Hascii|lia].
        -- contradiction.
        -- rewrite Herr in Hnone. discriminate.
  - apply from_string_plain.
Qed.

(** Reading the example strings. *)
Lemma plainb_true (c : char) : plainb c = true <-> plain c.
Proof.
  unfold plainb, plain.
  rewrite orb_true_iff, andb_true_iff, N.eqb_eq, !N.leb_le. reflexivity.
Qed.

Lemma Forall_plainb (t : str) : forallb plainb t = true -> Forall plain t.
Proof.
  rewrite forallb_forall, Forall_forall. intros H c Hc.
  apply plainb_true, H, list_elem_of_In, Hc.
Qed.

Lemma first_bad_app (t1 t2 : str) (c : char) :
  Forall plain t1 -> ~ plain c -> first_bad (t1 ++ c :: t2) (length t1) c.
Proof.
  intros Hplain Hbad. split; [|split; [exact Hbad|]].
  - rewrite lookup_app_r by lia. rewrite Nat.sub_diag. reflexivity.
  - intros k' c' Hk' Hc'. rewrite lookup_app_l in Hc' by exact Hk'.
    rewrite Forall_forall in Hplain. apply Hplain.
    apply list_elem_of_lookup. eauto.
Qed.

(** The scenarios of the specification, through the theorem: 82
    characters give the length error, an ['x'] in the last place gives
    the character error naming it at position 80, and the easy puzzle
    is read into its grid. *)
Lemma from_string_errors_examples :
  from_string long_text = Err (InvalidLength 82) /\
  from_string x_text = Err (InvalidCharacter (chr "x") 80) /\
  from_string easy_text = Ok {| board := easy; original := easy |}.
Proof.
  split; [|split].
  - apply (proj1 (proj2 (from_string_errors long_text))).
    split; [vm_compute; reflexivity|]. vm_compute. lia.
  - assert (Hlen : length (strip_ws x_text) = 81) by (vm_compute; reflexivity).
    assert (Hascii : ascii_only (strip_ws x_text)).
    { apply Forall_forall. intros c Hc.
      assert (Hall : forallb (fun c => (c <? 128)%N) (strip_ws x_text) = true)
        by (vm_compute; reflexivity).
      rewrite forallb_forall in Hall.
      apply N.ltb_lt, Hall, list_elem_of_In, Hc. }
    apply (proj1 (proj1 (proj2 (proj2 (from_string_errors x_text)))
                   Hlen Hascii)).
    change (strip_ws x_text) with (take 80 easy_text ++ chr "x" :: []).
    apply (first_bad_app (take 80 easy_text) [] (chr "x")).
    + apply Forall_plainb. vm_compute. reflexivity.
    + intros Hx. apply plainb_true in Hx. vm_compute in Hx. discriminate.
  - change easy with (decode (strip_ws easy_text)).
    apply (proj1 (proj2 (proj2 (proj2 (from_string_errors easy_text))))).
    + vm_compute. reflexivity.
    + apply Forall_plainb. vm_compute. reflexivity.
Defined.

(** C6 as stated fails on a digit that is not ASCII: the first
    character of [arabic_text] is U+0663, none of ['.'], ['0'],
    ['1']..['9'], yet [isdigit] accepts it, [int] reads it as 3, and the
    board is built with 3 in its first cell. *)
Lemma from_string_accepts_arabic_digit :
  length (strip_ws arabic_text) = 81 /\
  Exists (fun c => ~ plain c) (strip_ws arabic_text) /\
  exists sd, from_string arabic_text = Ok sd /\ cell (board sd) 0 0 = 3%Z.
Proof.
  split; [vm_compute; reflexivity|]. split.
  - apply Exists_exists. exists 0x663%N. split.
    + apply list_elem_of_lookup. exists 0. vm_compute. reflexivity.
    + intros Hp. apply plainb_true in Hp. vm_compute in Hp. discriminate.
  - eexists. split; [vm_compute; reflexivity|]. vm_compute. reflexivity.
Qed.

(* ================================================================== *)
(** * Further properties of [is_solved] and [solve] *)
(* ================================================================== *)

(** X1.  On a 9x9 board [is_solved] answers [True] exactly when no cell
    is empty and no two different cells of one row, one column or one
    3x3 box hold the same value. *)
Theorem is_solved_iff_no_duplicate (b : grid) :
  wf b ->
  ((is_solved b).1 = true <->
   full b /\
   forall i j r c, i < 9 -> j < 9 -> r < 9 -> c < 9 ->
     peer r c i j -> cell b i j <> cell b r c).
Proof.
  intros _. rewrite is_solved_true. split; intros [Hfull H]; (split; [exact Hfull|]).
  - intros i j r c Hi Hj Hr Hc Hpeer.
    apply (proj1 (is_valid_true b _ r c Hr Hc) (H r c Hr Hc) i j Hi Hj Hpeer).
  - intros r c Hr Hc. apply is_valid_true; [assumption..|].
    intros i j Hi Hj Hpeer. apply H; assumption.
Qed.

Lemma is_solved_iff_no_duplicate_examples :
  ((is_solved easy_solved).1 = true <->
   full easy_solved /\
   forall i j r c, i < 9 -> j < 9 -> r < 9 -> c < 9 ->
     peer r c i j -> cell easy_solved i j <> cell easy_solved r c) /\
  (is_solved easy_solved).1 = true /\ (is_solved fives).1 = false.
Proof.
  split; [exact (is_solved_iff_no_duplicate easy_solved wf_easy_solved)|].
  split; vm_compute; reflexivity.
Defined.

(** X2.  On every 9x9 board, conflict-free or not, a [True] return of
    [solve] leaves a 9x9 board without empty cells in which every cell
    that was filled keeps its value, every cell that was empty holds a
    digit 1..9, and every cell that was empty, or passed [is_valid]
    before, passes [is_valid]. *)
Theorem solve_true_postcondition (b b' : grid) :
  wf b -> solve b = Some (true, b') ->
  wf b' /\ full b' /\
  (forall i j, i < 9 -> j < 9 ->
     (cell b i j <> 0%Z -> cell b' i j = cell b i j) /\
     (cell b i j = 0%Z -> (1 <= cell b' i j <= 9)%Z)) /\
  (forall i j, i < 9 -> j < 9 ->
     cell b i j = 0%Z \/ is_valid b (cell b i j) i j = true ->
     is_valid b' (cell b' i j) i j = true).
Proof.
  intros Hwf Hrun. pose proof (empties_le b) as Hle.
  apply (solve_fuel_sound 82 b b' Hwf ltac:(lia) Hrun).
Qed.

Lemma solve_true_postcondition_easy :
  wf easy_solved /\ full easy_solved /\
  (forall i j, i < 9 -> j < 9 ->
     (cell easy i j <> 0%Z -> cell easy_solved i j = cell easy i j) /\
     (cell easy i j = 0%Z -> (1 <= cell easy_solved i j <= 9)%Z)) /\
  (forall i j, i < 9 -> j < 9 ->
     cell easy i j = 0%Z \/ is_valid easy (cell easy i j) i j = true ->
     is_valid easy_solved (cell easy_solved i j) i j = true).
Proof.
  apply (solve_true_postcondition easy easy_solved wf_easy).
  vm_compute. reflexivity.
Defined.









(** X4.  Conflicting givens are never repaired: if two different cells
    of one row, column or box of a 9x9 board hold the same non-zero
    value, then whatever [solve] returns, [is_solved] answers [False]
    on the board it leaves. *)
Theorem solve_keeps_conflict (b : grid) i j r c :
  wf b -> i < 9 -> j < 9 -> r < 9 -> c < 9 -> peer r c i j ->
  cell b i j <> 0%Z -> cell b i j = cell b r c ->
  exists res b', solve b = Some (res, b') /\ (is_solved b').1 = false.
Proof.
  intros Hwf Hi Hj Hr Hc Hpeer Hnz Heq. pose proof (empties_le b) as Hle.
  destruct (solve_fuel_total 82 b Hwf ltac:(lia)) as (res & b' & Hrun & Hback).
  exists res, b'. split; [exact Hrun|].
  apply not_true_is_false. intros Hsolved.
  apply is_solved_true in Hsolved as [_ Hvalid].
  assert (Hsame : cell b' i j = cell b i j /\ cell b' r c = cell b r c).
  { destruct res.
    - destruct (solve_fuel_sound 82 b b' Hwf ltac:(lia) Hrun)
        as (_ & _ & Hext & _).
      split; [apply (Hext i j Hi Hj), Hnz|].
      apply (Hext r c Hr Hc). congruence.
    - rewrite (Hback eq_refl). auto. }
  destruct Hsame as [Hij Hrc].
  apply (proj1 (is_valid_true b' _ r c Hr Hc) (Hvalid r c Hr Hc)
           i j Hi Hj Hpeer).
  congruence.
Qed.

Lemma solve_keeps_conflict_examples :
  (exists res b', solve clash = Some (res, b') /\ (is_solved b').1 = false) /\
  (exists res b', solve fives = Some (res, b') /\ (is_solved b').1 = false).
Proof.
  split.
  - apply (solve_keeps_conflict clash 0 2 0 0);
      [split; [reflexivity|repeat constructor]|lia..| |discriminate|reflexivity].
    split; [discriminate|]. left. reflexivity.
  - apply (solve_keeps_conflict fives 0 1 0 0);
      [exact wf_fives|lia..| |discriminate|reflexivity].
    split; [discriminate|]. left. reflexivity.
Defined.

(* ================================================================== *)
(** * Hints and the solver *)
(* ================================================================== *)

(** Writing a digit that passes [is_valid] keeps a conflict-free board
    conflict-free, also over a digit written earlier. *)
Lemma write_keeps_consistent (b : grid) r c d :
  wf b -> r < 9 -> c < 9 -> consistent b -> is_valid b d r c = true ->
  consistent (set_cell b r c d).
Proof.
  intros Hwf Hr Hc Hcons Hvalid i j Hi Hj Hnz. unfold valid_at.
  destruct (decide ((i, j) = (r, c))) as [[= -> ->]|Hne].
  - rewrite cell_set_eq by assumption.
    rewrite is_valid_set_self by assumption. exact Hvalid.
  - rewrite cell_set_ne in Hnz |- * by assumption.
    apply is_valid_true; [assumption..|].
    intros i' j' Hi' Hj' Hpeer Heq.
    destruct (decide ((i', j') = (r, c))) as [[= -> ->]|Hne'].
    + rewrite cell_set_eq in Heq by assumption.
      apply (proj1 (is_valid_true b d r c Hr Hc) Hvalid i j Hi Hj).
      * apply peer_sym, Hpeer.
      * congruence.
    + rewrite cell_set_ne in Heq by assumption.
      apply (proj1 (is_valid_true b _ i j Hi Hj) (Hcons i j Hi Hj Hnz)
               i' j' Hi' Hj' Hpeer Heq).
Qed.

Lemma get_hint_Some (b : grid) r c d :
  get_hint b = Some (r, c, d) ->
  r < 9 /\ c < 9 /\ cell b r c = 0%Z /\ candidate b r c d.
Proof.
  unfold get_hint, single_scan, any_scan.
  destruct (for_cells (single_at b)) as [h|] eqn:Hscan.
  - intros [= ->].
    apply for_cells_Some in Hscan as (r' & c' & Hr & Hc & Hat & _).
    apply single_at_Some in Hat as (d' & [= -> -> ->] & H0 & Hd & _). auto.
  - intros Hany.
    apply for_cells_Some in Hany as (r' & c' & Hr & Hc & Hat & _).
    apply any_at_Some in Hat as (d' & [= -> -> ->] & H0 & Hd & _). auto.
Qed.

(** X5.  Every hint is a legal move: the cell lies on the board and is
    empty, the digit is one of 1..9 and passes [is_valid] there; and
    writing it into a conflict-free 9x9 board leaves the board
    conflict-free, with one empty cell fewer. *)
Theorem get_hint_is_legal_move (b : grid) r c d :
  wf b -> get_hint b = Some (r, c, d) ->
  r < 9 /\ c < 9 /\ cell b r c = 0%Z /\ (1 <= d <= 9)%Z /\
  is_valid b d r c = true /\
  (consistent b -> consistent (set_cell b r c d)) /\
  S (empties (set_cell b r c d)) = empties b.
Proof.
  intros Hwf Hhint.
  apply get_hint_Some in Hhint as (Hr & Hc & H0 & Hd & Hvalid).
  apply digits_range in Hd. repeat split; try assumption; try lia.
  - intros Hcons. apply write_keeps_consistent; assumption.
  - apply empties_set_cell; try assumption. lia.
Qed.

Lemma get_hint_is_legal_move_easy :
  4 < 9 /\ 5 < 9 /\ cell easy 4 5 = 0%Z /\ (1 <= 4 <= 9)%Z /\
  is_valid easy 4 4 5 = true /\
  (consistent easy -> consistent (set_cell easy 4 5 4)) /\
  S (empties (set_cell easy 4 5 4)) = empties easy.
Proof.
  apply (get_hint_is_legal_move easy 4 5 4 wf_easy).
  vm_compute. reflexivity.
Defined.




(* ================================================================== *)
(** * What a solved board looks like *)
(* ================================================================== *)

(** Nine different values among the nine digits are all nine digits. *)
Lemma pigeon9 (f : nat -> Z) :
  (forall k, k < 9 -> (1 <= f k <= 9)%Z) ->
  (forall k k', k < 9 -> k' < 9 -> f k = f k' -> k = k') ->
  forall d, (1 <= d <= 9)%Z -> exists k, k < 9 /\ f k = d.
Proof.
  intros Hrange Hinj d Hd.
  assert (Hnd : List.NoDup (map f (seq 0 9))).
  { apply NoDup_map_NoDup_ForallPairs; [|apply seq_NoDup].
    intros k k' Hk Hk'. apply in_seq in Hk, Hk'. apply Hinj; lia. }
  assert (Hincl : incl (map f (seq 0 9)) digits).
  { intros v Hv. apply in_map_iff in Hv as (k & <- & Hk).
    apply in_seq in Hk. apply digits_range, Hrange. lia. }
  assert (Hin : In d (map f (seq 0 9))).
  { apply (NoDup_length_incl Hnd (l' := digits)); [reflexivity|exact Hincl|].
    apply digits_range, Hd. }
  apply in_map_iff in Hin as (k & Hk & Hseq). apply in_seq in Hseq.
  exists k. split; [lia|exact Hk].
Qed.

(** The cell number [k] of the box of [(r0, c0)], as the box loop of
    [is_valid] walks it. *)
Lemma box_cell_in_box x k :
  x < 9 -> k < 3 -> x / 3 * 3 + k < 9 /\ triple (x / 3 * 3 + k) = triple x.
Proof.
  intros Hx Hk.
  do 9 (destruct x as [|x];
        [do 3 (destruct k as [|k]; [vm_compute; lia|]); lia|]).
  lia.
Qed.

(** A board of digits that [is_solved] accepts has every digit once in
    every row, column and box. *)
Lemma units_of_solved (b : grid) (d : Z) :
  all_digits b -> (is_solved b).1 = true -> (1 <= d <= 9)%Z ->
  (forall r, r < 9 ->
     exists c, c < 9 /\ cell b r c = d /\
       forall c', c' < 9 -> cell b r c' = d -> c' = c) /\
  (forall c, c < 9 ->
     exists r, r < 9 /\ cell b r c = d /\
       forall r', r' < 9 -> cell b r' c = d -> r' = r) /\
  (forall r0 c0, r0 < 9 -> c0 < 9 ->
     exists i j, i < 9 /\ j < 9 /\
       triple i = triple r0 /\ triple j = triple c0 /\ cell b i j = d /\
       forall i' j', i' < 9 -> j' < 9 ->
         triple i' = triple r0 -> triple j' = triple c0 ->
         cell b i' j' = d -> (i', j') = (i, j)).
Proof.
  intros Hdigits Hsolved Hd.
  apply is_solved_true in Hsolved as [_ Hvalid].
  assert (Hdiff : forall i j r c, i < 9 -> j < 9 -> r < 9 -> c < 9 ->
            cell b i j = cell b r c ->
            i = r \/ j = c \/ (triple i = triple r /\ triple j = triple c) ->
            (i, j) = (r, c)).
  { intros i j r c Hi Hj Hr Hc Heq Hnear.
    destruct (decide ((i, j) = (r, c))) as [|Hne]; [assumption|].
    exfalso.
    apply (proj1 (is_valid_true b _ r c Hr Hc) (Hvalid r c Hr Hc)
             i j Hi Hj (conj Hne Hnear) Heq). }
  split; [|split].
  - intros r Hr.
    destruct (pigeon9 (fun c => cell b r c)) with (d := d)
      as (c & Hc & Hcd); [intros; apply Hdigits; assumption| |exact Hd|].
    { intros k k' Hk Hk' Heq.
      assert (H : (r, k) = (r, k')) by (apply Hdiff; auto).
      congruence. }
    exists c. split; [exact Hc|]. split; [exact Hcd|].
    intros c' Hc' Hcd'.
    assert (H : (r, c') = (r, c)) by (apply Hdiff; auto; congruence).
    congruence.
  - intros c Hc.
    destruct (pigeon9 (fun r => cell b r c)) with (d := d)
      as (r & Hr & Hrd); [intros; apply Hdigits; assumption| |exact Hd|].
    { intros k k' Hk Hk' Heq.
      assert (H : (k, c) = (k', c)) by (apply Hdiff; auto).
      congruence. }
    exists r. split; [exact Hr|]. split; [exact Hrd|].
    intros r' Hr' Hrd'.
    assert (H : (r', c) = (r, c)) by (apply Hdiff; auto; congruence).
    congruence.
  - intros r0 c0 Hr0 Hc0.
    assert (Hq : forall k, k < 9 -> k / 3 < 3 /\ k mod 3 < 3 /\
                                   k = 3 * (k / 3) + k mod 3).
    { intros k Hk. pose proof (Nat.div_mod_eq k 3).
      pose proof (Nat.mod_upper_bound k 3 ltac:(lia)). lia. }
    destruct (pigeon9 (fun k => cell b (r0 / 3 * 3 + k / 3)
                                       (c0 / 3 * 3 + k mod 3)))
      with (d := d) as (k & Hk & Hkd); [| |exact Hd|].
    { intros k Hk. destruct (Hq k Hk) as (Hk1 & Hk2 & _).
      apply Hdigits; [apply (box_cell_in_box r0), Hk1
                     |apply (box_cell_in_box c0), Hk2]; assumption. }
    { intros k k' Hk Hk' Heq.
      destruct (Hq k Hk) as (Hk1 & Hk2 & Hk3).
      destruct (Hq k' Hk') as (Hk1' & Hk2' & Hk3').
      destruct (box_cell_in_box r0 (k / 3) Hr0 Hk1) as [Hi Hti].
      destruct (box_cell_in_box c0 (k mod 3) Hc0 Hk2) as [Hj Htj].
      destruct (box_cell_in_box r0 (k' / 3) Hr0 Hk1') as [Hi' Hti'].
      destruct (box_cell_in_box c0 (k' mod 3) Hc0 Hk2') as [Hj' Htj'].
      assert (H : (r0 / 3 * 3 + k / 3, c0 / 3 * 3 + k mod 3)
                  = (r0 / 3 * 3 + k' / 3, c0 / 3 * 3 + k' mod 3)).
      { apply Hdiff; auto. right. right. split; congruence. }
      pose proof (f_equal fst H) as H1. pose proof (f_equal snd H) as H2.
      cbn [fst snd] in H1, H2. lia. }
    destruct (Hq k Hk) as (Hk1 & Hk2 & _).
    destruct (box_cell_in_box r0 (k / 3) Hr0 Hk1) as [Hi Hti].
    destruct (box_cell_in_box c0 (k mod 3) Hc0 Hk2) as [Hj Htj].
    exists (r0 / 3 * 3 + k / 3), (c0 / 3 * 3 + k mod 3).
    repeat split; try assumption.
    intros i' j' Hi' Hj' Hti' Htj' Hd'.
    apply Hdiff; auto; [congruence|]. right. right. split; congruence.
Qed.

(** X7.  On a 9x9 board of digits 1..9 that [is_solved] accepts, every
    digit 1..9 stands exactly once in every row, exactly once in every
    column and exactly once in every 3x3 box. *)
Theorem solved_board_units (b : grid) (d : Z) :
  wf b -> all_digits b -> (is_solved b).1 = true -> (1 <= d <= 9)%Z ->
  (forall r, r < 9 ->
     exists c, c < 9 /\ cell b r c = d /\
       forall c', c' < 9 -> cell b r c' = d -> c' = c) /\
  (forall c, c < 9 ->
     exists r, r < 9 /\ cell b r c = d /\
       forall r', r' < 9 -> cell b r' c = d -> r' = r) /\
  (forall r0 c0, r0 < 9 -> c0 < 9 ->
     exists i j, i < 9 /\ j < 9 /\
       triple i = triple r0 /\ triple j = triple c0 /\ cell b i j = d /\
       forall i' j', i' < 9 -> j' < 9 ->
         triple i' = triple r0 -> triple j' = triple c0 ->
         cell b i' j' = d -> (i', j') = (i, j)).
Proof.
  intros _. apply units_of_solved.
Qed.

Lemma all_digits_easy_solved : all_digits easy_solved.
Proof.
  intros i j Hi Hj.
  assert (H : forallb (fun i => forallb (fun j =>
                (1 <=? cell easy_solved i j)%Z
                && (cell easy_solved i j <=? 9)%Z) range9) range9 = true)
    by (vm_compute; reflexivity).
  rewrite forallb_forall in H.
  specialize (H i (proj2 (in_seq 9 0 i) ltac:(lia))).
  rewrite forallb_forall in H.
  specialize (H j (proj2 (in_seq 9 0 j) ltac:(lia))).
  apply andb_true_iff in H as [H1 H2]. apply Z.leb_le in H1, H2. lia.
Qed.

Lemma solved_board_units_easy_solved :
  (forall r, r < 9 ->
     exists c, c < 9 /\ cell easy_solved r c = 7%Z /\
       forall c', c' < 9 -> cell easy_solved r c' = 7%Z -> c' = c) /\
  (forall c, c < 9 ->
     exists r, r < 9 /\ cell easy_solved r c = 7%Z /\
       forall r', r' < 9 -> cell easy_solved r' c = 7%Z -> r' = r) /\
  (forall r0 c0, r0 < 9 -> c0 < 9 ->
     exists i j, i < 9 /\ j < 9 /\
       triple i = triple r0 /\ triple j = triple c0 /\
       cell easy_solved i j = 7%Z /\
       forall i' j', i' < 9 -> j' < 9 ->
         triple i' = triple r0 -> triple j' = triple c0 ->
         cell easy_solved i' j' = 7%Z -> (i', j') = (i, j)).
Proof.
  apply (solved_board_units easy_solved 7 wf_easy_solved
           all_digits_easy_solved).
  - vm_compute. reflexivity.
  - lia.
Defined.

(* ================================================================== *)
(** * What [from_string] builds *)
(* ================================================================== *)

(** A collecting loop that does not raise returns the values of its
    iterations, in order. *)
Lemma collect_Ok_val {A B} (dflt : B) (f : A -> result B) xs ys :
  collect f xs = Ok ys ->
  ys = map (fun x => from_ok dflt (f x)) xs /\
  forall x, In x xs -> f x = Ok (from_ok dflt (f x)).
Proof.
  revert ys. induction xs as [|x xs IH]; intros ys; simpl.
  - intros [= <-]. split; [reflexivity|]. intros x [].
  - destruct (f x) as [y|e] eqn:Hfx; simpl; [|discriminate].
    destruct (collect f xs) as [zs|e]; simpl; [|discriminate].
    intros [= <-]. destruct (IH zs eq_refl) as [-> Hall].
    split; [reflexivity|]. intros z [<-|Hz]; [|apply Hall, Hz].
    rewrite Hfx. reflexivity.
Qed.

(** What the loop body has decoded when it does not raise. *)
Lemma parse_char_Ok (c : char) pos v :
  parse_char c pos = Ok v ->
  (0 <= v <= 9)%Z /\
  (v = 0%Z <-> c = chr "." \/ c = chr "0") /\
  (v <> 0%Z -> isdigit c = true /\ int_char c = Some v).
Proof.
  unfold parse_char.
  destruct (N.eqb_spec c (chr ".")) as [->|Hdot].
  { intros [= <-]. split; [lia|]. split; [|congruence]. split; auto. }
  destruct (N.eqb_spec c (chr "0")) as [->|Hzero].
  { intros [= <-]. split; [lia|]. split; [|congruence]. split; auto. }
  cbn [orb]. destruct (isdigit c); [|discriminate].
  destruct (int_char c) as [w|]; [|discriminate].
  destruct (Z.leb_spec 1 w); destruct (Z.leb_spec w 9); cbn [andb];
    try discriminate.
  intros [= <-]. split; [lia|]. split; [|auto].
  split; [lia|]. intros [?|?]; contradiction.
Qed.

Lemma from_string_Ok_rows (s : str) (sd : Sudoku) :
  from_string s = Ok sd ->
  length (strip_ws s) = 81 /\
  (forall i j, i < 9 -> j < 9 ->
     parse_char (char_at (strip_ws s) (i * 9 + j)) (i * 9 + j)
     = Ok (cell (board sd) i j)) /\
  wf (board sd) /\ original sd = board sd.
Proof.
  intros Hrun.
  destruct (Nat.eq_dec (length (strip_ws s)) 81) as [Hlen|Hlen].
  2:{ unfold from_string in Hrun.
      rewrite (proj2 (Nat.eqb_neq _ _) Hlen) in Hrun. discriminate. }
  split; [exact Hlen|]. rewrite (from_string_81 s Hlen) in Hrun.
  set (P := fun i j =>
         parse_char (char_at (strip_ws s) (i * 9 + j)) (i * 9 + j)) in *.
  change ((do g <- collect (fun i => collect (fun j => P i j) range9) range9;
           init (Some g)) = Ok sd) in Hrun.
  destruct (collect (fun i => collect (fun j => P i j) range9) range9)
    as [g|e] eqn:Hrows; [|discriminate].
  cbn [bind] in Hrun.
  destruct (collect_Ok_val [] _ _ _ Hrows) as [_ Hrow].
  assert (Hcell : forall i j, i < 9 -> j < 9 ->
            P i j = Ok (from_ok 0%Z (P i j))).
  { intros i j Hi Hj.
    specialize (Hrow i (proj2 (in_seq 9 0 i) ltac:(lia))).
    destruct (collect_Ok_val 0%Z _ _ _ Hrow) as [_ Hcol].
    apply Hcol. apply in_seq. lia. }
  rewrite (rows_Ok P (fun i j => from_ok 0%Z (P i j)) Hcell) in Hrows.
  assert (Hg : g = map (fun i => map (fun j => from_ok 0%Z (P i j)) range9)
                       range9) by congruence.
  subst g. clear Hrows.
  rewrite (init_wf _ (wf_rows (fun i j => from_ok 0%Z (P i j)))) in Hrun.
  assert (Hsd : sd = {| board := map (fun i => map (fun j =>
                                    from_ok 0%Z (P i j)) range9) range9;
                        original := map (fun i => map (fun j =>
                                    from_ok 0%Z (P i j)) range9) range9 |})
    by congruence.
  subst sd. clear Hrun. cbn [board original].
  split; [|split; [apply (wf_rows (fun i j => from_ok 0%Z (P i j)))
                  |reflexivity]].
  intros i j Hi Hj.
  rewrite (cell_rows (f := fun i j => from_ok 0%Z (P i j))) by assumption.
  apply Hcell; assumption.
Qed.

(** X8.  Whatever the text, a board [from_string] builds is well
    formed: the stripped text had 81 characters, the board is 9x9,
    [original] equals [board], every cell holds 0..9, a cell is empty
    exactly where the character is ['.'] or ['0'], and a filled cell
    holds the value [int] gives its character. *)
Theorem from_string_builds_digit_board (s : str) (sd : Sudoku) :
  from_string s = Ok sd ->
  length (strip_ws s) = 81 /\ wf (board sd) /\ original sd = board sd /\
  forall i j, i < 9 -> j < 9 ->
    (0 <= cell (board sd) i j <= 9)%Z /\
    (cell (board sd) i j = 0%Z <->
     char_at (strip_ws s) (i * 9 + j) = chr "." \/
     char_at (strip_ws s) (i * 9 + j) = chr "0") /\
    (cell (board sd) i j <> 0%Z ->
     int_char (char_at (strip_ws s) (i * 9 + j)) = Some (cell (board sd) i j)).
Proof.
  intros Hrun.
  destruct (from_string_Ok_rows s sd Hrun) as (Hlen & Hparse & Hwf & Horig).
  split; [exact Hlen|]. split; [exact Hwf|]. split; [exact Horig|].
  intros i j Hi Hj.
  destruct (parse_char_Ok _ _ _ (Hparse i j Hi Hj)) as (Hrange & Hzero & Hint).
  split; [exact Hrange|]. split; [exact Hzero|].
  intros Hnz. apply Hint, Hnz.
Qed.

Lemma from_string_builds_digit_board_arabic :
  exists sd, from_string arabic_text = Ok sd /\
  length (strip_ws arabic_text) = 81 /\ wf (board sd) /\
  original sd = board sd /\
  forall i j, i < 9 -> j < 9 ->
    (0 <= cell (board sd) i j <= 9)%Z /\
    (cell (board sd) i j = 0%Z <->
     char_at (strip_ws arabic_text) (i * 9 + j) = chr "." \/
     char_at (strip_ws arabic_text) (i * 9 + j) = chr "0") /\
    (cell (board sd) i j <> 0%Z ->
     int_char (char_at (strip_ws arabic_text) (i * 9 + j))
     = Some (cell (board sd) i j)).
Proof.
  eexists. split; [vm_compute; reflexivity|].
  apply (from_string_builds_digit_board arabic_text).
  vm_compute. reflexivity.
Defined.

Lemma strip_ws_app (s t : str) : strip_ws (s ++ t) = strip_ws s ++ strip_ws t.
Proof. unfold strip_ws. apply List.filter_app. Qed.

Lemma strip_ws_space (w : str) :
  Forall (fun c => isspace c = true) w -> strip_ws w = [].
Proof.
  unfold strip_ws. induction 1 as [|c w Hc _ IH]; simpl; [reflexivity|].
  rewrite Hc. exact IH.
Qed.

Lemma from_string_strip (s t : str) :
  strip_ws s = strip_ws t -> from_string s = from_string t.
Proof. intros H. unfold from_string. rewrite H. reflexivity. Qed.

(** X9.  Whitespace anywhere in the text changes nothing: with a run of
    whitespace characters inserted, [from_string] gives the same board
    or raises the same error. *)
Theorem from_string_ignores_whitespace (s1 w s2 : str) :
  Forall (fun c => isspace c = true) w ->
  from_string (s1 ++ w ++ s2) = from_string (s1 ++ s2).
Proof.
  intros Hw. apply from_string_strip.
  rewrite !strip_ws_app, (strip_ws_space w Hw). reflexivity.
Qed.

(** The easy puzzle with a line feed and a carriage return after its
    first row, and the 82-character text with a tab in it. *)
Lemma from_string_ignores_whitespace_examples :
  from_string (take 9 easy_text ++ [10; 13]%N ++ drop 9 easy_text)
    = Ok {| board := easy; original := easy |} /\
  from_string (take 40 long_text ++ [9]%N ++ drop 40 long_text)
    = Err (InvalidLength 82).
Proof.
  split.
  - rewrite (from_string_ignores_whitespace (take 9 easy_text) [10; 13]%N
               (drop 9 easy_text)) by (repeat constructor).
    vm_compute. reflexivity.
  - rewrite (from_string_ignores_whitespace (take 40 long_text) [9]%N
               (drop 40 long_text)) by (repeat constructor).
    vm_compute. reflexivity.
Defined.

(** X10.  From text to solution: when [from_string] builds a board
    without conflicts and [solve] returns [True] on it, the board left
    is accepted by [is_solved], repeats every digit of the text in its
    place, and holds every digit 1..9 exactly once in every row, every
    column and every 3x3 box. *)
Theorem text_to_solution (s : str) (sd : Sudoku) (b' : grid) (d : Z) :
  from_string s = Ok sd -> consistent (board sd) ->
  solve (board sd) = Some (true, b') -> (1 <= d <= 9)%Z ->
  (is_solved b').1 = true /\
  (forall i j, i < 9 -> j < 9 -> cell (board sd) i j <> 0%Z ->
     cell b' i j = cell (board sd) i j) /\
  (forall r, r < 9 ->
     exists c, c < 9 /\ cell b' r c = d /\
       forall c', c' < 9 -> cell b' r c' = d -> c' = c) /\
  (forall c, c < 9 ->
     exists r, r < 9 /\ cell b' r c = d /\
       forall r', r' < 9 -> cell b' r' c = d -> r' = r) /\
  (forall r0 c0, r0 < 9 -> c0 < 9 ->
     exists i j, i < 9 /\ j < 9 /\
       triple i = triple r0 /\ triple j = triple c0 /\ cell b' i j = d /\
       forall i' j', i' < 9 -> j' < 9 ->
         triple i' = triple r0 -> triple j' = triple c0 ->
         cell b' i' j' = d -> (i', j') = (i, j)).
Proof.
  intros Hbuild Hcons Hrun Hd.
  destruct (from_string_Ok_rows s sd Hbuild) as (_ & Hparse & Hwf & _).
  pose proof (empties_le (board sd)) as Hle.
  pose proof (solve_fuel_sound 82 _ _ Hwf ltac:(lia) Hrun) as Hfrom.
  destruct (solved_from_completion _ _ Hcons Hfrom) as (_ & Hext & Hsolved).
  split; [exact Hsolved|]. split.
  - intros i j Hi Hj. apply (Hext i j Hi Hj).
  - apply units_of_solved; [|exact Hsolved|exact Hd].
    intros i j Hi Hj. destruct (Hext i j Hi Hj) as [Hsame Hfill].
    destruct (Z.eq_dec (cell (board sd) i j) 0%Z) as [Hz|Hnz];
      [apply Hfill, Hz|].
    rewrite (Hsame Hnz).
    destruct (parse_char_Ok _ _ _ (Hparse i j Hi Hj)) as (Hrange & _).
    lia.
Qed.

Lemma text_to_solution_easy :
  (is_solved easy_solved).1 = true /\
  (forall i j, i < 9 -> j < 9 -> cell easy i j <> 0%Z ->
     cell easy_solved i j = cell easy i j) /\
  (forall r, r < 9 ->
     exists c, c < 9 /\ cell easy_solved r c = 5%Z /\
       forall c', c' < 9 -> cell easy_solved r c' = 5%Z -> c' = c) /\
  (forall c, c < 9 ->
     exists r, r < 9 /\ cell easy_solved r c = 5%Z /\
       forall r', r' < 9 -> cell easy_solved r' c = 5%Z -> r' = r) /\
  (forall r0 c0, r0 < 9 -> c0 < 9 ->
     exists i j, i < 9 /\ j < 9 /\
       triple i = triple r0 /\ triple j = triple c0 /\
       cell easy_solved i j = 5%Z /\
       forall i' j', i' < 9 -> j' < 9 ->
         triple i' = triple r0 -> triple j' = triple c0 ->
         cell easy_solved i' j' = 5%Z -> (i', j') = (i, j)).
Proof.
  apply (text_to_solution easy_text {| board := easy; original := easy |}
           easy_solved 5).
  - vm_compute. reflexivity.
  - exact consistent_easy.
  - vm_compute. reflexivity.
  - lia.
Defined.

(* ================================================================== *)
(** * Moves of the player *)
(* ================================================================== *)

Lemma try_move_Placed (s : Sudoku) row col num s' :
  try_move s row col num = (Placed, s') ->
  (0 <= row <= 8)%Z /\ (0 <= col <= 8)%Z /\ (1 <= num <= 9)%Z /\
  cell (original s) (Z.to_nat row) (Z.to_nat col) = 0%Z /\
  is_valid (board s) num (Z.to_nat row) (Z.to_nat col) = true /\
  s' = {| board := set_cell (board s) (Z.to_nat row) (Z.to_nat col) num;
          original := original s |}.
Proof.
  unfold try_move.
  destruct (Z.leb_spec 0 row); destruct (Z.leb_spec row 8);
    destruct (Z.leb_spec 0 col); destruct (Z.leb_spec col 8);
    cbn [andb negb]; try discriminate.
  destruct (Z.leb_spec 1 num); destruct (Z.leb_spec num 9);
    cbn [andb negb]; try discriminate.
  destruct (Z.eqb_spec (cell (original s) (Z.to_nat row) (Z.to_nat col)) 0);
    cbn [negb]; [|discriminate].
  destruct (is_valid (board s) num (Z.to_nat row) (Z.to_nat col)) eqn:Hv;
    [|discriminate].
  intros [= <-]. repeat split; try lia; assumption.
Qed.

Lemma try_move_other (s : Sudoku) row col num reply s' :
  try_move s row col num = (reply, s') -> reply <> Placed -> s' = s.
Proof.
  unfold try_move.
  destruct (negb _); [intros [= _ <-]; reflexivity|].
  destruct (negb _); [intros [= _ <-]; reflexivity|].
  destruct (negb _); [intros [= _ <-]; reflexivity|].
  destruct (is_valid _ _ _ _); intros [= <- <-]; [contradiction|reflexivity].
Qed.

Lemma try_move_in_play (s : Sudoku) row col num :
  in_play s ->
  in_play (try_move s row col num).2 /\
  original (try_move s row col num).2 = original s.
Proof.
  intros Hplay.
  destruct (try_move s row col num) as [reply s'] eqn:Hmove. cbn [snd].
  assert (Hcase : reply = Placed \/ reply <> Placed)
    by (destruct reply; (left; reflexivity) || (right; discriminate)).
  destruct Hcase as [->|Hother].
  - apply try_move_Placed in Hmove
      as (Hrow & Hcol & Hnum & Hfree & Hvalid & ->).
    destruct Hplay as (Hwf & Hwfo & Hcons & Hgiven). cbn [board original].
    split; [|reflexivity].
    split; [apply wf_set_cell, Hwf|]. split; [exact Hwfo|]. split.
    + cbn [board]. apply write_keeps_consistent; try assumption; lia.
    + intros i j Hi Hj. cbn [board original].
      destruct (decide ((i, j) = (Z.to_nat row, Z.to_nat col)))
        as [[= -> ->]|Hne].
      * rewrite cell_set_eq by (try assumption; lia).
        split; [intros Hnz; contradiction|intros _; lia].
      * rewrite cell_set_ne by assumption. apply Hgiven; assumption.
  - rewrite (try_move_other s row col num reply s' Hmove Hother). auto.
Qed.

(** X11.  A move of the player keeps the game sound.  If both grids are
    9x9, the board has no conflict and the given cells hold their
    givens, then after a move, accepted or not: the same holds, and
    [original] is untouched.  An accepted move had its position on the
    board, its number in 1..9 and a target that is not a given, and it
    changes that cell only; a rejected move changes nothing. *)
Theorem try_move_keeps_game (s : Sudoku) (row col num : Z) :
  in_play s ->
  in_play (try_move s row col num).2 /\
  original (try_move s row col num).2 = original s /\
  ((try_move s row col num).1 = Placed ->
     (0 <= row <= 8)%Z /\ (0 <= col <= 8)%Z /\ (1 <= num <= 9)%Z /\
     cell (original s) (Z.to_nat row) (Z.to_nat col) = 0%Z /\
     cell (board (try_move s row col num).2) (Z.to_nat row) (Z.to_nat col)
       = num /\
     forall i j, (i, j) <> (Z.to_nat row, Z.to_nat col) ->
       cell (board (try_move s row col num).2) i j = cell (board s) i j) /\
  ((try_move s row col num).1 <> Placed -> (try_move s row col num).2 = s).
Proof.
  intros Hplay.
  destruct (try_move_in_play s row col num Hplay) as [Hin Horig].
  split; [exact Hin|]. split; [exact Horig|].
  destruct (try_move s row col num) as [reply s'] eqn:Hmove.
  cbn [fst snd]. split.
  - intros ->. apply try_move_Placed in Hmove
      as (Hrow & Hcol & Hnum & Hfree & _ & ->).
    cbn [board]. repeat split; try lia; try assumption.
    + apply cell_set_eq; [apply Hplay|lia|lia].
    + intros i j Hne. apply cell_set_ne, Hne.
  - intros Hother. apply (try_move_other s row col num reply s' Hmove Hother).
Qed.

Lemma in_play_easy_game : in_play easy_game.
Proof.
  split; [exact wf_easy|]. split; [exact wf_easy|].
  split; [exact consistent_easy|]. intros i j Hi Hj.
  unfold easy_game. cbn [board original].
  split; [reflexivity|]. intros Hz. rewrite Hz. lia.
Qed.

(** On the easy puzzle: 4 at (0, 0) is placed, (0, 2) is a given, 3 at
    (0, 0) conflicts with the 3 of the row, row 9 is off the board and
    10 is no digit. *)
Lemma try_move_keeps_game_examples :
  (try_move easy_game 0 0 4).1 = Placed /\
  (try_move easy_game 0 2 5).1 = OriginalCell /\
  (try_move easy_game 0 0 3).1 = Conflict /\
  (try_move easy_game 9 0 1).1 = BadPosition /\
  (try_move easy_game 0 0 10).1 = BadNumber /\
  in_play (try_move easy_game 0 0 4).2 /\
  cell (board (try_move easy_game 0 0 4).2) 0 0 = 4%Z /\
  (try_move easy_game 0 2 5).2 = easy_game.
Proof.
  pose proof (try_move_keeps_game easy_game 0 0 4 in_play_easy_game)
    as (Hin & _ & Hplaced & _).
  pose proof (try_move_keeps_game easy_game 0 2 5 in_play_easy_game)
    as (_ & _ & _ & Hkept).
  do 5 (split; [vm_compute; reflexivity|]).
  split; [exact Hin|]. split.
  - apply Hplaced. vm_compute. reflexivity.
  - apply Hkept. vm_compute. discriminate.
Defined.

Lemma init_Ok_inv (g : grid) (s : Sudoku) :
  init (Some g) = Ok s -> wf g /\ s = {| board := g; original := g |}.
Proof.
  intros Hinit.
  destruct (negb (length g =? 9)
            || existsb (fun row => negb (length row =? 9)) g) eqn:Htest.
  - unfold init, load_board in Hinit. rewrite Htest in Hinit. discriminate.
  - apply dimension_test in Htest. split; [exact Htest|].
    rewrite (init_wf g Htest) in Hinit. congruence.
Qed.

Lemma play_moves_in_play moves : forall s : Sudoku,
  in_play s ->
  in_play (play_moves s moves) /\
  original (play_moves s moves) = original s.
Proof.
  induction moves as [|[[row col] num] moves IH]; intros s Hplay; [auto|].
  cbn [play_moves].
  pose proof (is_solved_board (board s)) as Hsame.
  destruct (is_solved (board s)) as [done b]. cbn [snd] in Hsame. subst b.
  assert (Hs : {| board := board s; original := original s |} = s)
    by (destruct s; reflexivity).
  rewrite Hs. destruct done; [auto|].
  destruct (try_move_in_play s row col num Hplay) as [Hin Horig].
  destruct (IH _ Hin) as [Hin' Horig']. split; [exact Hin'|congruence].
Qed.

(** X12.  A game played by moves alone cannot be won by cheating.  Start
    from the object built from a 9x9 grid without conflicts and feed the
    loop of [play_mode] any moves: [original] stays the grid, the board
    stays conflict-free with the givens in place, and if [is_solved]
    then accepts the board, the board is a completion of the grid
    (givens kept, the other cells filled with 1..9, no conflict). *)
Theorem play_moves_sound (g : grid) (s0 : Sudoku) (moves : list (Z * Z * Z)) :
  init (Some g) = Ok s0 -> consistent g ->
  original (play_moves s0 moves) = g /\
  in_play (play_moves s0 moves) /\
  ((is_solved (board (play_moves s0 moves))).1 = true ->
   completion g (board (play_moves s0 moves))).
Proof.
  intros Hinit Hcons.
  apply init_Ok_inv in Hinit as [Hwf ->].
  assert (Hstart : in_play {| board := g; original := g |}).
  { split; [exact Hwf|]. split; [exact Hwf|]. split; [exact Hcons|].
    intros i j Hi Hj. cbn [board original].
    split; [reflexivity|]. intros Hz. rewrite Hz. lia. }
  destruct (play_moves_in_play moves _ Hstart) as [Hin Horig].
  cbn [original] in Horig. split; [exact Horig|]. split; [exact Hin|].
  intros Hsolved. destruct Hin as (Hwfb & _ & _ & Hgiven).
  rewrite Horig in Hgiven.
  split; [exact Hwfb|]. split; [|exact Hsolved].
  apply is_solved_true in Hsolved as [Hfull _].
  intros i j Hi Hj. destruct (Hgiven i j Hi Hj) as [Hsame Hother].
  split; [exact Hsame|]. intros Hz.
  specialize (Hother Hz). specialize (Hfull i j Hi Hj). lia.
Qed.

Lemma play_moves_sound_easy :
  original (play_moves easy_game [(0, 0, 4); (0, 2, 5); (0, 1, 8)]%Z) = easy /\
  in_play (play_moves easy_game [(0, 0, 4); (0, 2, 5); (0, 1, 8)]%Z) /\
  ((is_solved (board (play_moves easy_game
                        [(0, 0, 4); (0, 2, 5); (0, 1, 8)]%Z))).1 = true ->
   completion easy (board (play_moves easy_game
                             [(0, 0, 4); (0, 2, 5); (0, 1, 8)]%Z))) /\
  cell (board (play_moves easy_game [(0, 0, 4); (0, 2, 5); (0, 1, 8)]%Z)) 0 1
    = 8%Z.
Proof.
  split; [|split; [|split]]; try (vm_compute; reflexivity);
    apply (play_moves_sound easy easy_game);
    try exact consistent_easy; try (vm_compute; reflexivity).
Defined.

(* ================================================================== *)
(** * Text or file name *)
(* ================================================================== *)

Lemma filter_length_all {A} (f : A -> bool) xs :
  length (List.filter f xs) = length xs <-> forall x, In x xs -> f x = true.
Proof.
  induction xs as [|x xs IH]; simpl.
  - split; [intros _ x []|reflexivity].
  - pose proof (List.filter_length_le f xs) as Hle.
    destruct (f x) eqn:Hfx; simpl.
    + split.
      * intros Hlen z [<-|Hz]; [exact Hfx|]. apply IH; [lia|exact Hz].
      * intros Hall. f_equal. apply IH. intros z Hz. apply Hall. auto.
    + split; [lia|]. intros Hall.
      rewrite (Hall x (or_introl eq_refl)) in Hfx. discriminate.
Qed.

(** X13.  Which puzzle texts [solve_mode] reads as text.  A text with
    81 characters besides whitespace is handed to [from_string] exactly
    when it contains no whitespace at all and none of its last five
    characters is ['.']; every other such text is taken for a file
    name. *)
Theorem solve_mode_reads_text (s : str) :
  length (strip_ws s) = 81 ->
  (solve_mode_source s = FromText <->
   (forall c, In c s -> isspace c = false) /\
   (forall c, In c (last5 s) -> c <> chr ".")).
Proof.
  intros Hstrip. unfold solve_mode_source.
  pose proof (List.filter_length_le (fun c => negb (isspace c)) s) as Hle.
  fold (strip_ws s) in Hle.
  assert (Hws : length s <= 81 <-> forall c, In c s -> isspace c = false).
  { rewrite <- Hstrip. split.
    - intros Hlen c Hc. apply negb_true_iff.
      apply (proj1 (filter_length_all (fun c => negb (isspace c)) s));
        [unfold strip_ws in *; lia|exact Hc].
    - intros Hall.
      rewrite <- (proj2 (filter_length_all (fun c => negb (isspace c)) s));
        [reflexivity|].
      intros c Hc. apply negb_true_iff, Hall, Hc. }
  destruct (Nat.ltb_spec 81 (length s)) as [Hlong|Hshort]; cbn [orb].
  - split; [discriminate|]. intros [Hall _]. apply Hws in Hall. lia.
  - destruct (existsb _ (last5 s)) eqn:Hdot.
    + split; [discriminate|]. intros [_ Hno]. exfalso.
      apply existsb_exists in Hdot as (c & Hc & Heq).
      apply N.eqb_eq in Heq. apply (Hno c Hc Heq).
    + split; [intros _|reflexivity]. split; [apply Hws, Hshort|].
      intros c Hc Heq. rewrite existsb_false in Hdot.
      specialize (Hdot c Hc). apply N.eqb_neq in Hdot. contradiction.
Qed.

(** The same puzzle three ways: with ['0'] for its empty cells it is
    read as text; with ['.'] for the last cell, or on two lines, it is
    taken for a file name, though [from_string] reads the same board
    from all three. *)
Lemma solve_mode_reads_text_examples :
  solve_mode_source easy_text = FromText /\
  solve_mode_source dot_text = FromFile /\
  solve_mode_source (take 9 easy_text ++ [10]%N ++ drop 9 easy_text)
    = FromFile /\
  from_string dot_text = from_string easy_text /\
  ((forall c, In c easy_text -> isspace c = false) /\
   (forall c, In c (last5 easy_text) -> c <> chr ".")).
Proof.
  do 4 (split; [vm_compute; reflexivity|]).
  apply (proj1 (solve_mode_reads_text easy_text ltac:(vm_compute; reflexivity))).
  vm_compute. reflexivity.
Defined.

(* ================================================================== *)
(** * The printed board *)
(* ================================================================== *)

Lemma digit_cases (v : Z) :
  (0 <= v <= 9)%Z ->
  In v [0; 1; 2; 3; 4; 5; 6; 7; 8; 9]%Z.
Proof. intros Hv. simpl. lia. Qed.

Lemma cell_text_length v : (0 <= v <= 9)%Z -> String.length (cell_text v) = 3.
Proof.
  intros Hv. apply digit_cases in Hv. simpl in Hv.
  repeat (destruct Hv as [<-|Hv]; [vm_compute; reflexivity|]). destruct Hv.
Qed.

Lemma cell_text_inj v v' :
  (0 <= v <= 9)%Z -> (0 <= v' <= 9)%Z ->
  cell_text v = cell_text v' -> v = v'.
Proof.
  intros Hv Hv'. apply digit_cases in Hv, Hv'. simpl in Hv, Hv'.
  repeat (destruct Hv as [<-|Hv]);
    repeat (destruct Hv' as [<-|Hv']);
    try contradiction;
    intros H; try reflexivity; vm_compute in H; discriminate.
Qed.

Lemma append_nil (t : string) : "" +:+ t = t.
Proof. reflexivity. Qed.

Lemma append_cons a (s t : string) : String a s +:+ t = String a (s +:+ t).
Proof. reflexivity. Qed.

Lemma string_length_app (s t : string) :
  String.length (s +:+ t) = String.length s + String.length t.
Proof.
  induction s as [|a s IH]; [reflexivity|].
  rewrite append_cons. cbn [String.length]. rewrite IH. reflexivity.
Qed.

(** Two texts that end in pieces of equal length agree piece by piece. *)
Lemma append_cancel (s1 s2 t1 t2 : string) :
  String.length t1 = String.length t2 ->
  s1 +:+ t1 = s2 +:+ t2 -> s1 = s2 /\ t1 = t2.
Proof.
  intros Hlen. revert s2.
  induction s1 as [|a s1 IH]; intros [|c s2]; 
    rewrite ?append_nil, ?append_cons; intros Heq.
  - auto.
  - exfalso. rewrite Heq in Hlen. cbn [String.length] in Hlen.
    rewrite string_length_app in Hlen. lia.
  - exfalso. rewrite <- Heq in Hlen. cbn [String.length] in Hlen.
    rewrite string_length_app in Hlen. lia.
  - injection Heq as -> Heq. destruct (IH s2 Heq) as [-> ->]. auto.
Qed.

Lemma row_fold_inj (b b' : grid) i js :
  (forall j, In j js ->
     (0 <= cell b i j <= 9)%Z /\ (0 <= cell b' i j <= 9)%Z) ->
  forall p p',
    fold_left (fun row_str j =>
                 let row_str := row_str +:+ cell_text (cell b i j) in
                 if (j + 1) mod 3 =? 0 then row_str +:+ "|" else row_str)
              js p
    = fold_left (fun row_str j =>
                 let row_str := row_str +:+ cell_text (cell b' i j) in
                 if (j + 1) mod 3 =? 0 then row_str +:+ "|" else row_str)
              js p' ->
    p = p' /\ forall j, In j js -> cell b i j = cell b' i j.
Proof.
  induction js as [|j js IH]; intros Hdigits p p' Heq.
  - split; [exact Heq|]. intros j [].
  - cbn [fold_left] in Heq. cbv zeta in Heq.
    apply IH in Heq as [Hstep Hrest];
      [|intros j' Hj'; apply Hdigits; right; exact Hj'].
    destruct (Hdigits j (or_introl eq_refl)) as [Hv Hv'].
    assert (Htext : p +:+ cell_text (cell b i j)
                    = p' +:+ cell_text (cell b' i j)).
    { destruct ((j + 1) mod 3 =? 0); [|exact Hstep].
      apply append_cancel in Hstep as [Hstep _]; [exact Hstep|reflexivity]. }
    apply append_cancel in Htext as [Hp Hcell];
      [|rewrite !cell_text_length by assumption; reflexivity].
    split; [exact Hp|]. intros j' [<-|Hj']; [|apply Hrest, Hj'].
    apply cell_text_inj; assumption.
Qed.

Lemma row_line_at (b : grid) i :
  i < 9 -> pretty_print b !! (2 + i + i / 3) = Some (row_line b i).
Proof.
  intros Hi. do 9 (destruct i as [|i]; [reflexivity|]). lia.
Qed.

Lemma pretty_print_inj (b b' : grid) :
  wf b -> wf b' ->
  (forall i j, i < 9 -> j < 9 -> (0 <= cell b i j <= 9)%Z) ->
  (forall i j, i < 9 -> j < 9 -> (0 <= cell b' i j <= 9)%Z) ->
  pretty_print b = pretty_print b' -> b = b'.
Proof.
  intros Hwf Hwf' Hdigits Hdigits' Hprint.
  apply grid_ext; [assumption..|]. intros i j Hi Hj.
  pose proof (row_line_at b i Hi) as Hrow.
  rewrite Hprint, (row_line_at b' i Hi) in Hrow. injection Hrow as Hrow.
  symmetry in Hrow. unfold row_line in Hrow.
  apply row_fold_inj in Hrow as [_ Hcells].
  - apply Hcells. apply in_seq. lia.
  - intros j' Hj'. apply in_seq in Hj'.
    split; [apply Hdigits|apply Hdigits']; lia.
Qed.

(** X14.  The printed board tells the board: two different 9x9 boards
    with cells in 0..9 are never printed the same. *)
Theorem pretty_print_distinguishes (b b' : grid) :
  wf b -> wf b' ->
  (forall i j, i < 9 -> j < 9 -> (0 <= cell b i j <= 9)%Z) ->
  (forall i j, i < 9 -> j < 9 -> (0 <= cell b' i j <= 9)%Z) ->
  b <> b' -> pretty_print b <> pretty_print b'.
Proof.
  intros Hwf Hwf' Hdigits Hdigits' Hne Hprint.
  apply Hne. apply pretty_print_inj; assumption.
Qed.

Lemma row_line_length (b : grid) i :
  i < 9 -> (forall j, j < 9 -> (0 <= cell b i j <= 9)%Z) ->
  String.length (row_line b i) = 33.
Proof.
  intros Hi Hdigits. unfold row_line, range9.
  cbn [fold_left seq]. cbv zeta.
  change ((0 + 1) mod 3 =? 0) with false.
  change ((1 + 1) mod 3 =? 0) with false.
  change ((2 + 1) mod 3 =? 0) with true.
  change ((3 + 1) mod 3 =? 0) with false.
  change ((4 + 1) mod 3 =? 0) with false.
  change ((5 + 1) mod 3 =? 0) with true.
  change ((6 + 1) mod 3 =? 0) with false.
  change ((7 + 1) mod 3 =? 0) with false.
  change ((8 + 1) mod 3 =? 0) with true.
  cbv iota. rewrite !string_length_app, !cell_text_length by (apply Hdigits; lia).
  assert (Hlabel : String.length (str_int (Z.of_nat i)) = 1).
  { do 9 (destruct i as [|i]; [vm_compute; reflexivity|]). lia. }
  rewrite Hlabel. reflexivity.
Qed.

(** X15.  What is printed for a 9x9 board with cells in 0..9: fourteen
    lines, namely the header, a rule, and the nine row lines with a rule
    after every third; the header has 37 characters, a rule 39 and every
    row line 33, so the column labels and the rules are wider than the
    rows they frame. *)
Theorem pretty_print_shape (b : grid) :
  wf b ->
  (forall i j, i < 9 -> j < 9 -> (0 <= cell b i j <= 9)%Z) ->
  pretty_print b =
    [header_line; rule_line;
     row_line b 0; row_line b 1; row_line b 2; rule_line;
     row_line b 3; row_line b 4; row_line b 5; rule_line;
     row_line b 6; row_line b 7; row_line b 8; rule_line] /\
  String.length header_line = 37 /\
  String.length rule_line = 39 /\
  forall i, i < 9 -> String.length (row_line b i) = 33.
Proof.
  intros _ Hdigits. split; [reflexivity|].
  split; [vm_compute; reflexivity|]. split; [vm_compute; reflexivity|].
  intros i Hi. apply row_line_length; [exact Hi|].
  intros j Hj. apply Hdigits; assumption.
Qed.

Lemma digits_0_9 (b : grid) :
  forallb (fun i => forallb (fun j =>
    (0 <=? cell b i j)%Z && (cell b i j <=? 9)%Z) range9) range9 = true ->
  forall i j, i < 9 -> j < 9 -> (0 <= cell b i j <= 9)%Z.
Proof.
  intros H i j Hi Hj. rewrite forallb_forall in H.
  specialize (H i (proj2 (in_seq 9 0 i) ltac:(lia))).
  rewrite forallb_forall in H.
  specialize (H j (proj2 (in_seq 9 0 j) ltac:(lia))).
  apply andb_true_iff in H as [H1 H2]. apply Z.leb_le in H1, H2. lia.
Qed.

Lemma pretty_print_distinguishes_easy :
  pretty_print easy <> pretty_print easy_solved /\
  pretty_print easy_solved <> pretty_print easy_swapped.
Proof.
  split.
  - apply (pretty_print_distinguishes easy easy_solved wf_easy wf_easy_solved);
      [apply digits_0_9; vm_compute; reflexivity..|discriminate].
  - apply (pretty_print_distinguishes easy_solved easy_swapped
             wf_easy_solved);
      [split; [reflexivity|repeat constructor]
      |apply digits_0_9; vm_compute; reflexivity..|discriminate].
Defined.

(** The first lines printed for [easy], and a row that is wider because
    its cells are not digits. *)
Lemma pretty_print_shape_examples :
  take 3 (pretty_print easy) =
    ["    0   1   2   3   4   5   6   7   8";
     "  +---+---+---+---+---+---+---+---+---+";
     "0 | .  .  3 | .  2  . | 6  .  . |"] /\
  (forall i, i < 9 -> String.length (row_line easy i) = 33) /\
  row_line odd_grid 0 = "0 | 17  -3  . | .  .  . | .  .  . |".
Proof.
  split; [vm_compute; reflexivity|]. split; [|vm_compute; reflexivity].
  apply (pretty_print_shape easy wf_easy).
  apply digits_0_9. vm_compute. reflexivity.
Defined.

(* ================================================================== *)
(** * What [from_string] raises *)
(* ================================================================== *)

Lemma rows_Ok_inv {B} (dflt : B) (P : nat -> nat -> result B) g :
  collect (fun i => collect (fun j => P i j) range9) range9 = Ok g ->
  g = map (fun i => map (fun j => from_ok dflt (P i j)) range9) range9.
Proof.
  intros Hrows.
  destruct (collect_Ok_val [] _ _ _ Hrows) as [_ Hrow].
  assert (Hcell : forall i j, i < 9 -> j < 9 ->
            P i j = Ok (from_ok dflt (P i j))).
  { intros i j Hi Hj.
    specialize (Hrow i (proj2 (in_seq 9 0 i) ltac:(lia))).
    destruct (collect_Ok_val dflt _ _ _ Hrow) as [_ Hcol].
    apply Hcol. apply in_seq. lia. }
  rewrite (rows_Ok P (fun i j => from_ok dflt (P i j)) Hcell) in Hrows.
  congruence.
Qed.

Lemma err_of_None {A} (r : result A) : err_of r = None -> exists a, r = Ok a.
Proof. destruct r as [a|e]; [eauto|discriminate]. Qed.

(** X16.  The errors of [from_string], for any text.  Either the
    stripped text has not 81 characters and the length error reports its
    length; or it has, and the error comes from the first character that
    is not decoded: the error is the one the loop body raises for that
    character at that position (the character error naming both, or the
    error of [int] naming the character), and every character before it
    was decoded.  The dimension error is never raised. *)
Theorem from_string_error_source (s : str) (e : error) :
  from_string s = Err e ->
  (length (strip_ws s) <> 81 /\ e = InvalidLength (length (strip_ws s))) \/
  (length (strip_ws s) = 81 /\
   exists k c, k < 81 /\ strip_ws s !! k = Some c /\
     parse_char c k = Err e /\
     (e = InvalidCharacter c k \/ e = IntLiteral c) /\
     forall k', k' < k ->
       exists v, parse_char (char_at (strip_ws s) k') k' = Ok v).
Proof.
  intros Hrun.
  destruct (Nat.eq_dec (length (strip_ws s)) 81) as [Hlen|Hlen].
  2:{ left. split; [exact Hlen|]. unfold from_string in Hrun.
      rewrite (proj2 (Nat.eqb_neq _ _) Hlen) in Hrun.
      injection Hrun as <-. reflexivity. }
  right. split; [exact Hlen|].
  assert (Hcells : for_cells (fun i j =>
            err_of (parse_char (char_at (strip_ws s) (i * 9 + j))
                               (i * 9 + j))) = Some e).
  { rewrite <- rows_err. rewrite (from_string_81 s Hlen) in Hrun.
    destruct (collect _ range9) as [g|e'] eqn:Hrows; cbn [bind] in Hrun.
    - exfalso. rewrite (rows_Ok_inv 0%Z _ g Hrows) in Hrun.
      rewrite (init_wf _ (wf_rows (fun i j => from_ok 0%Z
                 (parse_char (char_at (strip_ws s) (i * 9 + j))
                             (i * 9 + j))))) in Hrun.
      discriminate.
    - cbn [err_of]. congruence. }
  apply for_cells_Some in Hcells as (r & c0 & Hr & Hc0 & Hbody & Hprev).
  apply err_of_Some in Hbody.
  exists (r * 9 + c0), (char_at (strip_ws s) (r * 9 + c0)).
  split; [lia|]. split; [apply lookup_char_at; lia|].
  split; [exact Hbody|]. split; [apply parse_char_err, Hbody|].
  intros k' Hk'. destruct (flat_pos k' ltac:(lia)) as (Hq & Hm & Hflat).
  specialize (Hprev (k' / 9) (k' mod 9) Hq Hm). cbv beta in Hprev.
  rewrite Hflat in Hprev. apply err_of_None, Hprev.
  unfold before. lia.
Qed.

(** An ['x'] at the end of the text, and a superscript two at its
    start, which [isdigit] accepts and [int] refuses. *)
Lemma from_string_error_source_examples :
  from_string x_text = Err (InvalidCharacter (chr "x") 80) /\
  from_string (<[0 := 0xb2%N]> easy_text) = Err (IntLiteral 0xb2%N) /\
  ((length (strip_ws x_text) <> 81 /\
    InvalidCharacter (chr "x") 80 = InvalidLength (length (strip_ws x_text)))
   \/
   (length (strip_ws x_text) = 81 /\
    exists k c, k < 81 /\ strip_ws x_text !! k = Some c /\
      parse_char c k = Err (InvalidCharacter (chr "x") 80) /\
      (InvalidCharacter (chr "x") 80 = InvalidCharacter c k \/
       InvalidCharacter (chr "x") 80 = IntLiteral c) /\
      forall k', k' < k ->
        exists v, parse_char (char_at (strip_ws x_text) k') k' = Ok v)).
Proof.
  split; [vm_compute; reflexivity|]. split; [vm_compute; reflexivity|].
  apply (from_string_error_source x_text). vm_compute. reflexivity.
Defined.
